(** * subsquid-drizzle-store: the status store and the finalized-commit protocol

    A shallow embedding of [src/store.ts] (class [DrizzleDatabase]).

    - JavaScript numbers that travel through the store are heights and
      nonces read from, or written to, [int4] columns; they are modelled as
      [Z], the column type's range being checked where PostgreSQL checks it.
    - The PostgreSQL database is an explicit value of type [Database]: the
      namespaces (schemas) with the three tables the store provisions, and
      the caller's own tables ([domain]), on which the store never acts.
    - [async] code that runs inside [db.transaction] is written in the monad
      [Tx]: it threads the data the transaction sees, the data a rollback
      restores and the list of the statements sent to the server, and it
      stops at the first exception.
    - Other processes are a function on the database, applied where an
      attempt of [transact] waits between loading the state and writing:
      what a concurrent commit leaves behind at the isolation level READ
      COMMITTED, the default of PostgreSQL.
    - What the class calls but does not define (the [sql] tag and the query
      builder of drizzle-orm, [promise-retry], [assert], the statements of
      PostgreSQL) is modelled after the behaviour these libraries document;
      what the class holds as commented-out text only (the hot-block
      protocol) is modelled from the specification and marked as such. *)

From Stdlib Require Import ZArith Ascii String List.
From stdpp Require Import base option gmap strings list fin_maps sorting pretty.

Local Open Scope string_scope.
Local Open Scope list_scope.
Local Open Scope Z_scope.

(** ** Errors *)

(** What a rejected promise carries.  [RetryError] is the error of
    [promise-retry] (code [EPROMISERETRY], field [retried]): the error its
    [retry] callback throws, and the only one that makes it run again. *)
Inductive Error : Type :=
| AssertionError (message : option string)
| BackendError (sqlstate : string)
| UserError (message : string)
| RetryError (retried : Error).

Inductive Result (A : Type) : Type :=
| Ok (a : A)
| Err (e : Error).
Arguments Ok {A} a.
Arguments Err {A} e.

Definition is_ok {A} (r : Result A) : bool :=
  match r with Ok _ => true | Err _ => false end.

(** ** SQL text: the [sql] template tag of drizzle-orm *)

Module Sql.

Inductive Value : Type :=
| VNum (n : Z)
| VStr (s : string).

(** A template keeps its literal text and its interpolated values apart. *)
Inductive Chunk : Type :=
| StringChunk (s : string)
| ParamChunk (v : Value).

Definition SQL : Type := list Chunk.

(** An interpolated [${...}] is another SQL fragment, spliced in as it
    is, or a JavaScript value, sent as a bound parameter. *)
Inductive Arg : Type :=
| ASql (q : SQL)
| AVal (v : Value).

Definition arg_chunks (a : Arg) : SQL :=
  match a with
  | ASql q => q
  | AVal v => [ParamChunk v]
  end.

Fixpoint interleave (params : list Arg) (strings : list string) : SQL :=
  match params, strings with
  | p :: ps, s :: ss => arg_chunks p ++ StringChunk s :: interleave ps ss
  | _, _ => []
  end.

(** [sql`s0${p1}s1...${pn}sn`] *)
Definition sql (strings : list string) (params : list Arg) : SQL :=
  match strings with
  | [] => []
  | s0 :: ss => StringChunk s0 :: interleave params ss
  end.

(** [sql.raw(str)]: the string becomes literal SQL text. *)
Definition raw (str : string) : SQL := [StringChunk str].

Record Query : Type := { text : string; params : list Value }.

(** [toQuery] for PostgreSQL: text verbatim, the i-th value as [$i]. *)
Fixpoint render (q : SQL) (next : nat) : string * list Value :=
  match q with
  | [] => ("", [])
  | StringChunk s :: rest =>
      let '(t, ps) := render rest next in (s +:+ t, ps)
  | ParamChunk v :: rest =>
      let '(t, ps) := render rest (S next) in
      ("$" +:+ pretty next +:+ t, v :: ps)
  end.

Definition toQuery (q : SQL) : Query :=
  let '(t, ps) := render q 1%nat in {| text := t; params := ps |}.

Fixpoint join (parts : list SQL) (sep : SQL) : SQL :=
  match parts with
  | [] => []
  | [p] => p
  | p :: rest => p ++ sep ++ join rest sep
  end.

(** The query builder, [tx.select(fields).from(table).where(w).orderBy(o)],
    as the PostgreSQL dialect assembles it. *)
Definition select (fields : list SQL) (from : SQL)
    (where_ order_by : option SQL) : SQL :=
  sql ["select "; " from "; ""; ""; ""]
      [ASql (join fields (sql [", "] []));
       ASql from;
       ASql (from_option (fun w => sql [" where "; ""] [ASql w]) [] where_);
       ASql (from_option (fun o => sql [" order by "; ""] [ASql o]) [] order_by)].

(** Statements in a text, split at the semicolons that stand outside a
    quoted literal and before a [--] comment: how many commands the
    server is asked to run. *)
Fixpoint count_statements_go (s : string) (quoted pending : bool) : nat :=
  match s with
  | EmptyString => if pending then 1%nat else 0%nat
  | String c rest =>
      if quoted then
        count_statements_go rest (negb (Ascii.eqb c "'"%char)) true
      else if Ascii.eqb c "'"%char then count_statements_go rest true true
      else if Ascii.eqb c ";"%char then
        ((if pending then 1 else 0) + count_statements_go rest false false)%nat
      else if Ascii.eqb c "-"%char then
        match rest with
        | String "-"%char _ => if pending then 1%nat else 0%nat
        | _ => count_statements_go rest false true
        end
      else if (Ascii.eqb c " "%char || Ascii.eqb c "010"%char)%bool then
        count_statements_go rest false pending
      else count_statements_go rest false true
  end.

Definition count_statements (s : string) : nat :=
  count_statements_go s false false.

End Sql.

Import Sql.

(** ** Data model *)

Inductive IsolationLevel : Type :=
| ReadUncommitted
| ReadCommitted
| RepeatableRead
| Serializable.

Record DrizzleDatabaseOptions : Type := {
  opt_isolationLevel : option IsolationLevel;
  opt_stateSchema : option string
}.

Record HashAndHeight : Type := { height : Z; hash : string }.

Record FinalTxInfo : Type := {
  prevHead : HashAndHeight;
  nextHead : HashAndHeight;
  isOnTop : bool
}.

Record HotTxInfo : Type := {
  finalizedHead : HashAndHeight;
  baseHead : HashAndHeight;
  newBlocks : list HashAndHeight
}.

(** [DatabaseState extends HashAndHeight]: its own [height] and [hash] are
    reached through the coercion [head]. *)
Record DatabaseState : Type := {
  head :> HashAndHeight;
  top : list HashAndHeight;
  nonce : Z
}.

Definition RACE_MSG : string :=
  "status table was updated by foreign process, make sure no other processor is running".

(** The fields of a [DrizzleDatabase]; the connection [db] is the
    [Database] value the operations below are applied to. *)
Record DrizzleDatabase : Type := {
  statusSchema : string;
  isolationLevel : option IsolationLevel
}.

Definition new_DrizzleDatabase (options : option DrizzleDatabaseOptions)
    : DrizzleDatabase :=
  {| statusSchema := default "squid_processor" (options ≫= opt_stateSchema);
     isolationLevel := options ≫= opt_isolationLevel |}.

(** ** The database *)

(** A row of [status] without its key [id]; [hash] and [nonce] are the
    values the store itself writes (never [NULL]). *)
Record StatusRow : Type := { row_height : Z; row_hash : string; row_nonce : Z }.

(** A table that was not created yet is [None].  Primary keys are the keys
    of the maps: [id] for [status], [height] for [hot_block],
    [(block_height, index)] for [hot_change_log]. *)
Record Namespace : Type := {
  status : option (gmap Z StatusRow);
  hot_block : option (gmap Z string);
  hot_change_log : option (gmap (Z * Z) string)
}.

Definition empty_namespace : Namespace :=
  {| status := None; hot_block := None; hot_change_log := None |}.

Definition in_int4 (n : Z) : bool := (- 2 ^ 31 <=? n) && (n <? 2 ^ 31).

(** [Number.isSafeInteger] on an integer. *)
Definition isSafeInteger (n : Z) : bool :=
  (- (2 ^ 53 - 1) <=? n) && (n <=? 2 ^ 53 - 1).

Definition undefined_table : Error := BackendError "42P01".
Definition invalid_schema_name : Error := BackendError "3F000".
Definition unique_violation : Error := BackendError "23505".
Definition numeric_value_out_of_range : Error := BackendError "22003".

Definition block_of_row (r : Z * string) : HashAndHeight :=
  {| height := r.1; hash := r.2 |}.

Definition height_le (a b : HashAndHeight) : Prop := height a <= height b.

#[global] Instance height_le_dec a b : Decision (height_le a b) :=
  Z_le_dec (height a) (height b).

Section Store.

(** The caller's own tables. *)
Context {Domain : Type}.

Record Database : Type := {
  schemas : gmap string Namespace;
  domain : Domain
}.

Definition set_namespace (s : string) (ns : Namespace) (db : Database)
    : Database :=
  {| schemas := <[s := ns]> (schemas db); domain := domain db |}.

(** *** What each statement does to the data *)

(** A statement on the tables of schema [s]: it fails when the schema is
    not there, and otherwise reads and rewrites that namespace alone. *)
Definition on_namespace {A} (s : string) (missing : Error)
    (f : Namespace → Result (A * Namespace)) (db : Database)
    : Result (A * Database) :=
  match schemas db !! s with
  | None => Err missing
  | Some ns =>
      match f ns with
      | Ok (a, ns') => Ok (a, set_namespace s ns' db)
      | Err e => Err e
      end
  end.

(** [CREATE SCHEMA IF NOT EXISTS s] *)
Definition create_schema (s : string) (db : Database)
    : Result (unit * Database) :=
  match schemas db !! s with
  | Some _ => Ok (tt, db)
  | None => Ok (tt, set_namespace s empty_namespace db)
  end.

(** [CREATE TABLE IF NOT EXISTS s.status (...)] *)
Definition create_status (s : string) : Database → Result (unit * Database) :=
  on_namespace s invalid_schema_name (λ ns,
    Ok (tt, {| status := Some (default ∅ (status ns));
               hot_block := hot_block ns;
               hot_change_log := hot_change_log ns |})).

(** [CREATE TABLE IF NOT EXISTS s.hot_block (...)] *)
Definition create_hot_block (s : string)
    : Database → Result (unit * Database) :=
  on_namespace s invalid_schema_name (λ ns,
    Ok (tt, {| status := status ns;
               hot_block := Some (default ∅ (hot_block ns));
               hot_change_log := hot_change_log ns |})).

(** [CREATE TABLE IF NOT EXISTS s.hot_change_log (... references
    s.hot_block on delete cascade ...)] *)
Definition create_hot_change_log (s : string)
    : Database → Result (unit * Database) :=
  on_namespace s invalid_schema_name (λ ns,
    match hot_change_log ns, hot_block ns with
    | None, None => Err undefined_table
    | _, _ =>
        Ok (tt, {| status := status ns;
                   hot_block := hot_block ns;
                   hot_change_log := Some (default ∅ (hot_change_log ns)) |})
    end).

(** [SELECT height, hash, nonce FROM s.status WHERE id = 0] *)
Definition select_status (s : string)
    : Database → Result (list StatusRow * Database) :=
  on_namespace s undefined_table (λ ns,
    match status ns with
    | None => Err undefined_table
    | Some rows => Ok (option_list (rows !! 0), ns)
    end).

(** [INSERT INTO s.status (id, height, hash) VALUES (0, -1, '0x')]; the
    column [nonce] takes its default, 0. *)
Definition insert_status (s : string) : Database → Result (unit * Database) :=
  on_namespace s undefined_table (λ ns,
    match status ns with
    | None => Err undefined_table
    | Some rows =>
        match rows !! 0 with
        | Some _ => Err unique_violation
        | None =>
            Ok (tt, {| status :=
                         Some (<[0 := {| row_height := -1; row_hash := "0x";
                                         row_nonce := 0 |}]> rows);
                       hot_block := hot_block ns;
                       hot_change_log := hot_change_log ns |})
        end
    end).

Definition sorted_blocks (rows : gmap Z string) : list HashAndHeight :=
  merge_sort height_le (block_of_row <$> map_to_list rows).

(** [SELECT height, hash FROM s.hot_block ORDER BY height] *)
Definition select_hot_block (s : string)
    : Database → Result (list HashAndHeight * Database) :=
  on_namespace s undefined_table (λ ns,
    match hot_block ns with
    | None => Err undefined_table
    | Some rows => Ok (sorted_blocks rows, ns)
    end).

(** [UPDATE s.status SET height = $1, hash = $2, nonce = nonce + 1
     WHERE id = 0 AND nonce = $3], with the number of rows it changed.
    The two numbers are bound to [int4] columns. *)
Definition update_status (s : string) (nonce : Z) (next : HashAndHeight)
    : Database → Result (nat * Database) :=
  on_namespace s undefined_table (λ ns,
    match status ns with
    | None => Err undefined_table
    | Some rows =>
        if negb (in_int4 (height next) && in_int4 nonce)
        then Err numeric_value_out_of_range
        else
          match rows !! 0 with
          | None => Ok (0%nat, ns)
          | Some row =>
              if negb (row_nonce row =? nonce) then Ok (0%nat, ns)
              else if negb (in_int4 (row_nonce row + 1))
              then Err numeric_value_out_of_range
              else
                Ok (1%nat,
                    {| status :=
                         Some (<[0 := {| row_height := height next;
                                         row_hash := hash next;
                                         row_nonce := row_nonce row + 1 |}]>
                                 rows);
                       hot_block := hot_block ns;
                       hot_change_log := hot_change_log ns |})
          end
    end).

(** The statements below are not sent by any code that runs: they are
    what the reconciliation protocol of the specification needs from the
    status store (section 4.1). *)

(** Modelled from the spec: the deletion of hot-block rows, "cascading
    their change entries" ([hot_change_log.block_height] references
    [hot_block] with [ON DELETE CASCADE]); [keep] tells the heights that
    stay. *)
Definition keep_hot_blocks (keep : Z → bool) (ns : Namespace) : Namespace :=
  {| status := status ns;
     hot_block := filter (λ r, keep r.1 = true) <$> hot_block ns;
     hot_change_log := filter (λ r, keep r.1.1 = true) <$> hot_change_log ns |}.

(** Modelled from the spec: the statement of [deleteHotBlocks], "deletion
    of all hot-block rows at or below a given height",
    [DELETE FROM s.hot_block WHERE height <= $1]. *)
Definition delete_hot_blocks (s : string) (finalizedHeight : Z)
    : Database → Result (unit * Database) :=
  on_namespace s undefined_table (λ ns,
    match hot_block ns with
    | None => Err undefined_table
    | Some _ =>
        Ok (tt, keep_hot_blocks (λ h, negb (h <=? finalizedHeight)) ns)
    end).

(** Modelled from the spec: the statement of [rollbackBlock], which
    deletes one hot-block row and its change log. *)
Definition delete_hot_block (s : string) (blockHeight : Z)
    : Database → Result (unit * Database) :=
  on_namespace s undefined_table (λ ns,
    match hot_block ns with
    | None => Err undefined_table
    | Some _ => Ok (tt, keep_hot_blocks (λ h, negb (h =? blockHeight)) ns)
    end).

(** Modelled from the spec: the statement of [insertHotBlock], "insertion
    of a hot-block row", [INSERT INTO s.hot_block (height, hash)
    VALUES ($1, $2)]. *)
Definition insert_hot_block (s : string) (block : HashAndHeight)
    : Database → Result (unit * Database) :=
  on_namespace s undefined_table (λ ns,
    match hot_block ns with
    | None => Err undefined_table
    | Some rows =>
        if negb (in_int4 (height block)) then Err numeric_value_out_of_range
        else
          match rows !! height block with
          | Some _ => Err unique_violation
          | None =>
              Ok (tt, {| status := status ns;
                         hot_block := Some (<[height block := hash block]> rows);
                         hot_change_log := hot_change_log ns |})
          end
    end).

(** *** Transactions *)

(** [base] is what a rollback leaves, [cur] what the transaction's next
    statement sees, [log] the statements sent so far. *)
Record TxState : Type := {
  base : Database;
  cur : Database;
  log : list Query;
  level : option IsolationLevel
}.

Definition Tx (A : Type) : Type := TxState → Result A * TxState.

#[global] Instance Tx_ret : MRet Tx := λ A a st, (Ok a, st).

#[global] Instance Tx_bind : MBind Tx := λ A B f m st,
  match m st with
  | (Ok a, st') => f a st'
  | (Err e, st') => (Err e, st')
  end.

Definition throw {A} (e : Error) : Tx A := λ st, (Err e, st).

Definition lift {A} (r : Result A) : Tx A := λ st, (r, st).

(** [assert(cond, message)] of Node.js *)
Definition assert (cond : bool) (message : option string) : Tx unit :=
  if cond then mret tt else throw (AssertionError message).

Definition sent (q : SQL) (st : TxState) : TxState :=
  {| base := base st; cur := cur st; log := log st ++ [toQuery q];
     level := level st |}.

(** [tx.execute(q)]: the statement is sent, then acts on the data. *)
Definition tx_execute {A} (q : SQL) (run : Database → Result (A * Database))
    : Tx A := λ st,
  match run (cur st) with
  | Ok (a, db) =>
      (Ok a, {| base := base st; cur := db; log := log st ++ [toQuery q];
                level := level st |})
  | Err e => (Err e, sent q st)
  end.

(** [tx.select(...)...]: the query builder ends in the same call. *)
Definition tx_select {A} (q : SQL) (run : Database → Result (A * Database))
    : Tx A :=
  tx_execute q run.

(** A write whose statement text is not recorded. *)
Definition tx_apply {A} (run : Database → Result (A * Database)) : Tx A :=
  λ st,
  match run (cur st) with
  | Ok (a, db) =>
      (Ok a, {| base := base st; cur := db; log := log st;
                level := level st |})
  | Err e => (Err e, st)
  end.

(** The caller's callback is handed the transaction: whatever it writes
    is seen by the statements that follow and is undone by a rollback. *)
Definition run_callback (cb : Database → Result Database) : Tx unit :=
  tx_apply (λ db, match cb db with
                  | Ok db' => Ok (tt, db')
                  | Err e => Err e
                  end).

Definition takes_snapshot (lvl : option IsolationLevel) : bool :=
  match lvl with
  | Some RepeatableRead | Some Serializable => true
  | _ => false
  end.

(** Other processes commit [foreign] while this transaction waits between
    two statements.  At the default level (READ COMMITTED) what they
    wrote is there to stay and is what the next statement sees; a
    transaction that reads from a snapshot is modelled without
    interference. *)
Definition foreign_commit (foreign : Database → Database) : Tx unit :=
  λ st,
  if takes_snapshot (level st) then (Ok tt, st)
  else (Ok tt, {| base := foreign (base st); cur := foreign (cur st);
                  log := log st; level := level st |}).

Record Outcome (A : Type) : Type := {
  committed : Database;
  result : Result A;
  executed : list Query
}.
Arguments committed {A} o.
Arguments result {A} o.
Arguments executed {A} o.

(** [db.transaction(body, config)]: commit when the body returns, roll
    back when it throws. *)
Definition transaction {A} (body : Tx A) (config : option IsolationLevel)
    (db : Database) : Outcome A :=
  let '(r, st) := body {| base := db; cur := db; log := []; level := config |} in
  {| committed := match r with Ok _ => cur st | Err _ => base st end;
     result := r;
     executed := log st |}.

(** *** promise-retry *)

Record Retried (A : Type) : Type := {
  outcome : Outcome A;
  attempts : nat
}.
Arguments outcome {A} r.
Arguments attempts {A} r.

(** [fn] is run again only when it rejects with the error that its first
    argument [retry] throws, and only while the operation has timeouts
    left; any other rejection is final. *)
Fixpoint promiseRetry_from {A} (timeouts : nat) (number : nat)
    (fn : nat → Database → Outcome A) (db : Database) : Retried A :=
  let o := fn number db in
  match result o with
  | Err (RetryError retried) =>
      match timeouts with
      | O =>
          {| outcome := {| committed := committed o; result := Err retried;
                           executed := executed o |};
             attempts := number |}
      | S timeouts' =>
          let r := promiseRetry_from timeouts' (S number) fn (committed o) in
          {| outcome := {| committed := committed (outcome r);
                           result := result (outcome r);
                           executed := executed o ++ executed (outcome r) |};
             attempts := attempts r |}
      end
  | _ => {| outcome := o; attempts := number |}
  end.

(** The default options: [retries: 10]. *)
Definition promiseRetry {A} (fn : nat → Database → Outcome A)
    (db : Database) : Retried A :=
  promiseRetry_from 10 1 fn db.

(** *** The state loader *)

Definition chain_error : Error :=
  AssertionError (Some "blocks must form a continuous chain").

Fixpoint assertChainContinuity (base : HashAndHeight)
    (chain : list HashAndHeight) : Result unit :=
  match chain with
  | [] => Ok tt
  | b :: rest =>
      if height b =? height base + 1 then assertChainContinuity b rest
      else Err chain_error
  end.

Definition assertStateInvariants (state : DatabaseState)
    : Result DatabaseState :=
  if isSafeInteger (height state) then
    match assertChainContinuity state (top state) with
    | Ok _ => Ok state
    | Err e => Err e
    end
  else Err (AssertionError None).

(** [{...status[0], top}], handed to [assertStateInvariants]; without a
    first row the object has no [height], which is not a safe integer. *)
Definition spread_state (row : option StatusRow) (top : list HashAndHeight)
    : Result DatabaseState :=
  match row with
  | Some r =>
      assertStateInvariants
        {| head := {| height := row_height r; hash := row_hash r |};
           top := top; nonce := row_nonce r |}
  | None => Err (AssertionError None)
  end.

Definition status_fields : list SQL :=
  [sql ["height"] []; sql ["hash"] []; sql ["nonce"] []].

Definition hot_block_fields : list SQL :=
  [sql ["height"] []; sql ["hash"] []].

Section Methods.

Variable this : DrizzleDatabase.

Definition connect_body : Tx DatabaseState :=
  let schema := raw (statusSchema this) in
  tx_execute (sql ["CREATE SCHEMA IF NOT EXISTS "; ""] [ASql schema])
    (create_schema (statusSchema this)) ;;
  tx_execute (sql ["
        CREATE TABLE IF NOT EXISTS "; ".status (
          id int4 primary key,
          height int4 not null,
          hash text DEFAULT '0x',
          nonce int4 DEFAULT 0
        )"] [ASql schema])
    (create_status (statusSchema this)) ;;
  tx_execute
    (sql ["CREATE TABLE IF NOT EXISTS ";
          ".hot_block (height int4 primary key, hash text not null)"]
         [ASql schema])
    (create_hot_block (statusSchema this)) ;;
  tx_execute (sql ["
        CREATE TABLE IF NOT EXISTS "; ".hot_change_log (
          block_height int4 not null references "; ".hot_block on delete cascade,
          index int4 not null,
          change jsonb not null,
          PRIMARY KEY (block_height, index)
        )"] [ASql schema; ASql schema])
    (create_hot_change_log (statusSchema this)) ;;
  status ← tx_select
    (select status_fields (sql [""; ".status"] [ASql schema])
       (Some (sql ["id = 0"] [])) None)
    (select_status (statusSchema this));
  status ← (if Nat.eqb (length status) 0 then
              tx_execute
                (sql ["INSERT INTO ";
                      ".status (id, height, hash) VALUES (0, -1, '0x')"]
                     [ASql schema])
                (insert_status (statusSchema this)) ;;
              mret (status ++ [{| row_height := -1; row_hash := "0x";
                                  row_nonce := 0 |}])
            else mret status);
  top ← tx_select
    (select hot_block_fields (sql [""; ".hot_block"] [ASql schema])
       None (Some (sql ["height"] [])))
    (select_hot_block (statusSchema this));
  lift (spread_state (status !! 0%nat) top).

Definition connect (db : Database) : Outcome DatabaseState :=
  transaction connect_body None db.

Definition getState : Tx DatabaseState :=
  let schema := raw (statusSchema this) in
  status ← tx_select
    (select status_fields (sql [""; ".status"] [ASql schema])
       (Some (sql ["id = 0"] [])) None)
    (select_status (statusSchema this));
  assert (Nat.eqb (length status) 1) None ;;
  top ← tx_select
    (select hot_block_fields (sql [""; ".hot_block"] [ASql schema])
       None (Some (sql ["height"] [])))
    (select_hot_block (statusSchema this));
  lift (spread_state (status !! 0%nat) top).

(** The statement's row count comes back from the driver and is
    dropped: the method returns nothing. *)
Definition updateStatus (nonce : Z) (next : HashAndHeight) : Tx unit :=
  let schema := raw (statusSchema this) in
  _ ← tx_execute (sql ["
      UPDATE "; ".status
      SET height = "; ", hash = "; ", nonce = nonce + 1
      WHERE id = 0 AND nonce = "; "
    "] [ASql schema; AVal (VNum (height next)); AVal (VStr (hash next));
    AVal (VNum nonce)])
    (update_status (statusSchema this) nonce next);
  mret tt.

(** One attempt, the body handed to [db.transaction].  [foreign] is
    what other processes commit while the attempt, its state loaded and
    checked, waits for the callback and the update to run. *)
Definition transact_body (foreign : Database → Database)
    (info : FinalTxInfo) (cb : Database → Result Database) : Tx unit :=
  state ← getState;
  let prev := prevHead info in
  let next := nextHead info in
  assert (hash state =? hash (prevHead info))%string (Some RACE_MSG) ;;
  assert (height state =? height prev) None ;;
  assert (height prev <? height next) None ;;
  assert (negb (hash prev =? hash next)%string) None ;;
  foreign_commit foreign ;;
  run_callback cb ;;
  updateStatus (nonce state) next.

(** [foreign number] is the interference met by attempt [number]. *)
Definition transact (foreign : nat → Database → Database)
    (info : FinalTxInfo) (cb : Database → Result Database)
    (db : Database) : Retried unit :=
  promiseRetry
    (λ _number, transaction (transact_body (foreign _number) info cb)
                  (isolationLevel this))
    db.

(** *** The reorg-reconciliation protocol

    [transactHot], [transactHot2], [insertHotBlock], [deleteHotBlocks]
    and [rollbackBlock] are commented out in [store.ts] (and
    [rollbackBlock] has no body): the class exposes no reconciliation.
    The definitions of this part follow section 4.4 of the
    specification, and the commented text where the specification
    leaves an index open. *)

(** Modelled from the spec: [rollbackBlock] is missing (a [TODO]);
    step 6 rolls a block back by deleting its hot-block row and its
    change log. *)
Definition rollbackBlock (blockHeight : Z) : Tx unit :=
  tx_apply (delete_hot_block (statusSchema this) blockHeight).

(** Modelled from the spec: [insertHotBlock] is missing; step 7
    persists a new block as a hot-block row. *)
Definition insertHotBlock (block : HashAndHeight) : Tx unit :=
  tx_apply (insert_hot_block (statusSchema this) block).

(** Modelled from the spec: [deleteHotBlocks] is missing; step 9
    deletes all hot-block rows at or below the new finalized height. *)
Definition deleteHotBlocks (finalizedHeight : Z) : Tx unit :=
  tx_apply (delete_hot_blocks (statusSchema this) finalizedHeight).

(** Modelled from the spec: the status update of section 4.3, step 4,
    which [updateStatus] realizes without its last sentence: zero rows
    changed is a detected race. *)
Definition advanceStatus (nonce : Z) (next : HashAndHeight) : Tx unit :=
  changed ← tx_execute (sql ["
      UPDATE "; ".status
      SET height = "; ", hash = "; ", nonce = nonce + 1
      WHERE id = 0 AND nonce = "; "
    "] [ASql (raw (statusSchema this)); AVal (VNum (height next));
    AVal (VStr (hash next)); AVal (VNum nonce)])
    (update_status (statusSchema this) nonce next);
  assert (Nat.eqb changed 1) (Some RACE_MSG).

(** Modelled from the spec: step 6, highest height first. *)
Definition rollbackFrom (chain : list HashAndHeight) (rollbackPos : Z)
    : Tx unit :=
  foldr (λ b rest, rest ;; rollbackBlock (height b)) (mret tt)
        (drop (Z.to_nat rollbackPos) chain).

(** Modelled from the spec: step 7, the blocks past the finalized
    slice, one by one: the hot-block row, then the callback. *)
Fixpoint applyHotBlocks (cb : Z → Z → Database → Result Database)
    (i : Z) (blocks : list HashAndHeight) : Tx unit :=
  match blocks with
  | [] => mret tt
  | b :: rest =>
      insertHotBlock b ;;
      run_callback (cb i (i + 1)) ;;
      applyHotBlocks cb (i + 1) rest
  end.

(** Modelled from the spec: [transactHot2] is missing; one attempt of
    [reconcile(info, mutate)], steps 1 to 10 of section 4.4. *)
Definition reconcile_body (info : HotTxInfo)
    (cb : Z → Z → Database → Result Database) : Tx unit :=
  state ← getState;
  let chain := head state :: top state in
  let floor := height state in
  lift (assertChainContinuity (baseHead info) (newBlocks info)) ;;
  assert (height (finalizedHead info)
            <=? height (default (baseHead info) (last (newBlocks info))))
         None ;;
  assert (existsb (λ b, hash b =? hash (baseHead info))%string chain)
         (Some RACE_MSG) ;;
  (if Nat.eqb (length (newBlocks info)) 0 then
     assert (hash (default (head state) (last chain))
               =? hash (baseHead info))%string (Some RACE_MSG)
   else mret tt) ;;
  assert (floor <=? height (finalizedHead info)) (Some RACE_MSG) ;;
  let rollbackPos := height (baseHead info) + 1 - floor in
  assert (0 <=? rollbackPos) None ;;
  rollbackFrom chain rollbackPos ;;
  match newBlocks info with
  | [] => mret tt
  | first :: _ =>
      let finalizedEnd :=
        height (finalizedHead info) - height first + 1 in
      (if 0 <? finalizedEnd then run_callback (cb 0 finalizedEnd)
       else mret tt) ;;
      applyHotBlocks cb (Z.max 0 finalizedEnd)
        (drop (Z.to_nat finalizedEnd) (newBlocks info))
  end ;;
  let chain' := take (Z.to_nat rollbackPos) chain ++ newBlocks info in
  match chain' with
  | [] => throw (AssertionError None)
  | first :: _ =>
      let finalizedHeadPos :=
        height (finalizedHead info) - height first in
      assert ((0 <=? finalizedHeadPos)
              && bool_decide
                   (hash <$> chain' !! Z.to_nat finalizedHeadPos
                    = Some (hash (finalizedHead info))))
             None
  end ;;
  deleteHotBlocks (height (finalizedHead info)) ;;
  advanceStatus (nonce state) (finalizedHead info).

(** Modelled from the spec: a detected race is a failure that carries the
    race message (section 7). *)
Definition is_race (e : Error) : bool :=
  match e with
  | AssertionError (Some m) => (m =? RACE_MSG)%string
  | _ => false
  end.

(** Modelled from the spec: the retry wrapper of section 4.5, a whole
    attempt run again on a detected race, at most [retries] times. *)
Fixpoint retryOnRace {A} (retries : nat) (attempt : Database → Outcome A)
    (db : Database) : Outcome A :=
  let o := attempt db in
  match result o, retries with
  | Err e, S retries' =>
      if is_race e then
        let o' := retryOnRace retries' attempt (committed o) in
        {| committed := committed o'; result := result o';
           executed := executed o ++ executed o' |}
      else o
  | _, _ => o
  end.

(** Modelled from the spec: [reconcile], the wrapped attempt. *)
Definition reconcile (retries : nat) (info : HotTxInfo)
    (cb : Z → Z → Database → Result Database) (db : Database)
    : Outcome unit :=
  retryOnRace retries
    (transaction (reconcile_body info cb) (isolationLevel this)) db.

End Methods.

End Store.

Arguments Database Domain : clear implicits.
Arguments TxState Domain : clear implicits.
Arguments Tx Domain A : clear implicits.
Arguments Outcome Domain A : clear implicits.
Arguments Retried Domain A : clear implicits.
Arguments committed {Domain A} o.
Arguments result {Domain A} o.
Arguments executed {Domain A} o.
Arguments outcome {Domain A} r.
Arguments attempts {Domain A} r.

(** * Specification-side definitions *)

(** Invariant C1 in the words of the specification: in the sequence, each
    element's height is exactly one greater than its predecessor's. *)
Definition continuous (l : list HashAndHeight) : Prop :=
  ∀ (i : nat) (a b : HashAndHeight),
    l !! i = Some a → l !! S i = Some b → height b = height a + 1.

Definition seed_row : StatusRow :=
  {| row_height := -1; row_hash := "0x"; row_nonce := 0 |}.

Definition state_of_row (r : StatusRow) (top : list HashAndHeight)
    : DatabaseState :=
  {| head := {| height := row_height r; hash := row_hash r |};
     top := top; nonce := row_nonce r |}.

(** The state a namespace holds: its status row 0 and its hot blocks in
    ascending height, when both tables are there. *)
Definition persisted (ns : Namespace) : option DatabaseState :=
  rows ← status ns;
  row ← rows !! 0;
  blocks ← hot_block ns;
  Some (state_of_row row (sorted_blocks blocks)).

(** The three tables and the status row 0 in place, those that were
    there left as they are. *)
Definition seeded (ns : Namespace) : Namespace :=
  let rows := default ∅ (status ns) in
  {| status := Some (match rows !! 0 with
                     | Some _ => rows
                     | None => <[0 := seed_row]> rows
                     end);
     hot_block := Some (default ∅ (hot_block ns));
     hot_change_log := Some (default ∅ (hot_change_log ns)) |}.

(** What the loader answers on a namespace. *)
Definition load_ns (ns : Namespace) : Result DatabaseState :=
  match status ns with
  | None => Err undefined_table
  | Some rows =>
      match rows !! 0 with
      | None => Err (AssertionError None)
      | Some row =>
          match hot_block ns with
          | None => Err undefined_table
          | Some blocks =>
              assertStateInvariants (state_of_row row (sorted_blocks blocks))
          end
      end
  end.

Definition load {Domain : Type} (s : string) (db : Database Domain)
    : Result DatabaseState :=
  match schemas db !! s with
  | None => Err undefined_table
  | Some ns => load_ns ns
  end.

Definition logged {Domain : Type} (lg : list Query) (st : TxState Domain)
    : TxState Domain :=
  {| base := base st; cur := cur st; log := log st ++ lg; level := level st |}.

(** The four assertions of [transact] on the loaded state. *)
Definition precheck (info : FinalTxInfo) (state : DatabaseState) : Result unit :=
  if negb (hash state =? hash (prevHead info))%string
  then Err (AssertionError (Some RACE_MSG))
  else if negb (height state =? height (prevHead info))
  then Err (AssertionError None)
  else if negb (height (prevHead info) <? height (nextHead info))
  then Err (AssertionError None)
  else if (hash (prevHead info) =? hash (nextHead info))%string
  then Err (AssertionError None)
  else Ok tt.

(** One attempt of [transact] on the data: what is committed, and what the
    attempt answers. *)
Definition attempt_data {Domain : Type} (this : DrizzleDatabase)
    (foreign : Database Domain → Database Domain) (info : FinalTxInfo)
    (cb : Database Domain → Result (Database Domain)) (db : Database Domain)
    : Database Domain * Result unit :=
  match load (statusSchema this) db with
  | Err e => (db, Err e)
  | Ok state =>
      match precheck info state with
      | Err e => (db, Err e)
      | Ok _ =>
          let db1 :=
            if takes_snapshot (isolationLevel this) then db else foreign db in
          match cb db1 with
          | Err e => (db1, Err e)
          | Ok db2 =>
              match update_status (statusSchema this) (nonce state)
                      (nextHead info) db2 with
              | Err e => (db1, Err e)
              | Ok (_, db3) => (db3, Ok tt)
              end
          end
      end
  end.

(** A namespace a connection has been made to: the three tables and the
    status row 0 are there. *)
Definition provisioned {Domain : Type} (s : string) (db : Database Domain) : Prop :=
  ∃ ns rows row,
    schemas db !! s = Some ns ∧ status ns = Some rows ∧ rows !! 0 = Some row
    ∧ is_Some (hot_block ns) ∧ is_Some (hot_change_log ns).

(** The two invariants of a [DatabaseState]. *)
Definition valid_state (state : DatabaseState) : Prop :=
  continuous (head state :: top state) ∧ isSafeInteger (height state) = true.

(** The two hot tables of schema [s]. *)
Definition hot_tables {Domain : Type} (s : string) (db : Database Domain)
    : option (option (gmap Z string) * option (gmap (Z * Z) string)) :=
  (λ ns, (hot_block ns, hot_change_log ns)) <$> schemas db !! s.

(** Two databases that differ at most in the status row 0 of schema [s]. *)
Inductive status_row_update {Domain : Type} (s : string) (db : Database Domain)
    : Database Domain → Prop :=
| row_unchanged : status_row_update s db db
| row_changed ns rows row :
    schemas db !! s = Some ns → status ns = Some rows → is_Some (rows !! 0) →
    status_row_update s db
      (set_namespace s
         {| status := Some (<[0 := row]> rows);
            hot_block := hot_block ns;
            hot_change_log := hot_change_log ns |} db).

Definition put_change_log (cl : option (gmap (Z * Z) string))
    (ns : Namespace) : Namespace :=
  {| status := status ns; hot_block := hot_block ns; hot_change_log := cl |}.

(** The database with another content for the change log of schema [s]. *)
Definition with_change_log {Domain : Type} (s : string)
    (cl : option (gmap (Z * Z) string)) (db : Database Domain)
    : Database Domain :=
  {| schemas := alter (put_change_log cl) s (schemas db);
     domain := domain db |}.

Definition map_result {A B} (f : A → B) (r : Result A) : Result B :=
  match r with
  | Ok a => Ok (f a)
  | Err e => Err e
  end.

(** The statements of [connect], [getState] and [updateStatus] as the
    server receives them, for the schema name [s]. *)
Module Statement.

Definition create_schema (s : string) : Query :=
  {| text := "CREATE SCHEMA IF NOT EXISTS " +:+ s; params := [] |}.

Definition create_status (s : string) : Query :=
  {| text := "
        CREATE TABLE IF NOT EXISTS " +:+ s +:+ ".status (
          id int4 primary key,
          height int4 not null,
          hash text DEFAULT '0x',
          nonce int4 DEFAULT 0
        )";
     params := [] |}.

Definition create_hot_block (s : string) : Query :=
  {| text := "CREATE TABLE IF NOT EXISTS " +:+ s
             +:+ ".hot_block (height int4 primary key, hash text not null)";
     params := [] |}.

Definition create_hot_change_log (s : string) : Query :=
  {| text := "
        CREATE TABLE IF NOT EXISTS " +:+ s +:+ ".hot_change_log (
          block_height int4 not null references " +:+ s
             +:+ ".hot_block on delete cascade,
          index int4 not null,
          change jsonb not null,
          PRIMARY KEY (block_height, index)
        )";
     params := [] |}.

Definition select_status (s : string) : Query :=
  {| text := "select height, hash, nonce from " +:+ s
             +:+ ".status where id = 0";
     params := [] |}.

Definition insert_status (s : string) : Query :=
  {| text := "INSERT INTO " +:+ s
             +:+ ".status (id, height, hash) VALUES (0, -1, '0x')";
     params := [] |}.

Definition select_hot_block (s : string) : Query :=
  {| text := "select height, hash from " +:+ s
             +:+ ".hot_block order by height";
     params := [] |}.

Definition update_status (s : string) (nonce : Z) (next : HashAndHeight)
    : Query :=
  {| text := "
      UPDATE " +:+ s +:+ ".status
      SET height = $1, hash = $2, nonce = nonce + 1
      WHERE id = 0 AND nonce = $3
    ";
     params := [VNum (height next); VStr (hash next); VNum nonce] |}.

End Statement.

(** The status row 0 of schema [s], if the schema, the table and the row
    are there. *)
Definition status_row0 {Domain : Type} (s : string) (db : Database Domain)
    : option StatusRow :=
  default ∅ (status (default empty_namespace (schemas db !! s))) !! 0.

(** The statements a run of the loader sends: the second read is reached
    when the first one found the row. *)
Definition loader_statements {Domain : Type} (s : string)
    (db : Database Domain) : list Query :=
  Statement.select_status s
  :: match status_row0 s db with
     | Some _ => [Statement.select_hot_block s]
     | None => []
     end.

(** The statements a run of [connect] sends: the insertion is sent when
    the row is not there. *)
Definition connect_statements {Domain : Type} (s : string)
    (db : Database Domain) : list Query :=
  [Statement.create_schema s; Statement.create_status s;
   Statement.create_hot_block s; Statement.create_hot_change_log s;
   Statement.select_status s]
  ++ match status_row0 s db with
     | Some _ => []
     | None => [Statement.insert_status s]
     end
  ++ [Statement.select_hot_block s].

(** [t] holds [s] as it is, somewhere. *)
Definition embeds (s t : string) : Prop := ∃ pre post, t = pre +:+ s +:+ post.

(** ** Scenarios *)

(** A callback that writes the caller's tables only and does not throw. *)
Definition domain_callback {Domain : Type}
    (f : Z → Z → Database Domain → Domain)
    : Z → Z → Database Domain → Result (Database Domain) :=
  λ sliceBeg sliceEnd db,
    Ok {| schemas := schemas db; domain := f sliceBeg sliceEnd db |}.

Definition put_hot_block (blocks : option (gmap Z string)) (ns : Namespace)
    : Namespace :=
  {| status := status ns; hot_block := blocks;
     hot_change_log := hot_change_log ns |}.

Module Scenario.

(** A store with the default options. *)
Definition this : DrizzleDatabase := new_DrizzleDatabase None.

(** The caller has one table; its rows are kept in insertion order. *)
Definition Rows : Type := list string.

Definition insert_row (row : string) (db : Database Rows)
    : Result (Database Rows) :=
  Ok {| schemas := schemas db; domain := domain db ++ [row] |}.

Definition alone : nat → Database Rows → Database Rows := λ _ db, db.

Definition fresh : Database Rows := {| schemas := ∅; domain := [] |}.

(** After the first [connect]: height -1, hash ["0x"], nonce 0. *)
Definition connected : Database Rows := committed (connect this fresh).

Definition block (h : Z) (x : string) : HashAndHeight :=
  {| height := h; hash := x |}.

Definition advance (prev next : HashAndHeight) : FinalTxInfo :=
  {| prevHead := prev; nextHead := next; isOnTop := true |}.

(** This processor's call: from the initial head to its block 0. *)
Definition genesis : FinalTxInfo := advance (block (-1) "0x") (block 0 "genesis").

(** Another processor, started on the same database, commits its own
    block 0 with the very same code ... *)
Definition other_processor (db : Database Rows) : Database Rows :=
  committed (outcome
    (transact this alone (advance (block (-1) "0x") (block 0 "other-0"))
       (insert_row "row of the other processor, block 0") db)).

(** ... and then its block 1. *)
Definition other_processor_twice (db : Database Rows) : Database Rows :=
  committed (outcome
    (transact this alone (advance (block 0 "other-0") (block 1 "other-1"))
       (insert_row "row of the other processor, block 1")
       (other_processor db))).

(** The connected database with hot blocks put in its table. *)
Definition with_hot_blocks (blocks : gmap Z string) : Database Rows :=
  {| schemas := alter (put_hot_block (Some blocks)) (statusSchema this)
                  (schemas connected);
     domain := domain connected |}.

(** The held chain of the reconciliation round trip: finalized head
    (4, "base"), hot blocks (5, "a"), (6, "b"), (7, "c"), and a change
    log with entries for the blocks 5 and 7. *)
Definition held_namespace : Namespace :=
  {| status := Some {[ 0 := {| row_height := 4; row_hash := "base";
                               row_nonce := 3 |} ]};
     hot_block := Some (<[5 := "a"]> (<[6 := "b"]> {[ 7 := "c" ]}));
     hot_change_log := Some (<[(5, 0) := "change of a"]>
                               {[ (7, 0) := "change of c" ]}) |}.

Definition held {Domain : Type} (rows : Domain) : Database Domain :=
  {| schemas := {[ statusSchema this := held_namespace ]}; domain := rows |}.

Definition reorg : HotTxInfo :=
  {| finalizedHead := block 7 "c2";
     baseHead := block 6 "b";
     newBlocks := [block 7 "c2"; block 8 "d"] |}.

End Scenario.

(** * Properties *)

Lemma continuous_cons a b l :
  continuous (a :: b :: l) ↔ height b = height a + 1 ∧ continuous (b :: l).
Proof.
  split.
  - intros H. split; [exact (H 0%nat a b eq_refl eq_refl)|].
    intros i x y Hx Hy. exact (H (S i) x y Hx Hy).
  - intros [Hab H] [|i] x y Hx Hy; simpl in *.
    + by simplify_eq.
    + exact (H i x y Hx Hy).
Qed.

Lemma continuous_singleton a : continuous [a].
Proof. intros [|i] x y Hx Hy; simpl in *; discriminate. Qed.

Lemma assertChainContinuity_Ok base chain :
  assertChainContinuity base chain = Ok tt ↔ continuous (base :: chain).
Proof.
  revert base. induction chain as [|b rest IH]; intros base; simpl.
  - split; [intros _; apply continuous_singleton | done].
  - rewrite continuous_cons. destruct (Z.eqb_spec (height b) (height base + 1)).
    + rewrite IH. tauto.
    + split; [discriminate | tauto].
Qed.

Lemma assertChainContinuity_cases base chain :
  assertChainContinuity base chain = Ok tt
  ∨ assertChainContinuity base chain = Err chain_error.
Proof.
  revert base. induction chain as [|b rest IH]; intros base; simpl; [by left|].
  destruct (height b =? height base + 1); [apply IH | by right].
Qed.

Lemma assertStateInvariants_Ok state state' :
  assertStateInvariants state = Ok state' ↔
  state' = state ∧ isSafeInteger (height state) = true
  ∧ continuous (head state :: top state).
Proof.
  unfold assertStateInvariants. rewrite <- assertChainContinuity_Ok.
  destruct (isSafeInteger (height state)).
  - destruct (assertChainContinuity state (top state)) as [[]|e].
    + split; [intros [= <-]; done | intros (-> & _); done].
    + split; [discriminate | intros (_ & _ & ?); discriminate].
  - split; [discriminate | intros (_ & ? & _); discriminate].
Qed.

Lemma assertStateInvariants_Err state e :
  assertStateInvariants state = Err e →
  e = AssertionError None ∨ e = chain_error.
Proof.
  unfold assertStateInvariants.
  destruct (isSafeInteger _); [|intros [= <-]; by left].
  destruct (assertChainContinuity_cases state (top state)) as [-> | ->];
    [discriminate | intros [= <-]; by right].
Qed.

Lemma load_ns_Ok ns state :
  load_ns ns = Ok state ↔
  persisted ns = Some state ∧ isSafeInteger (height state) = true
  ∧ continuous (head state :: top state).
Proof.
  unfold load_ns, persisted.
  destruct (status ns) as [rows|]; simpl; [|by split; [|intros []]].
  destruct (rows !! 0) as [row|]; simpl; [|by split; [|intros []]].
  destruct (hot_block ns) as [blocks|]; simpl; [|by split; [|intros []]].
  rewrite assertStateInvariants_Ok.
  split; [intros (-> & ? & ?); done | intros ([= <-] & ? & ?); done].
Qed.

Section Statements.

Context {Domain : Type}.
Implicit Types (db : Database Domain) (st : TxState Domain).

Lemma append_nil_r (s : string) : s +:+ "" = s.
Proof.
  induction s as [|c s IH]; [done|].
  change (String c (s +:+ "") = String c s). by f_equal.
Qed.

Ltac query_text :=
  unfold toQuery, select, sql, raw; cbn;
  rewrite ?append_nil_r; reflexivity.

Lemma toQuery_create_schema s :
  toQuery (sql ["CREATE SCHEMA IF NOT EXISTS "; ""] [ASql (raw s)])
  = Statement.create_schema s.
Proof. query_text. Qed.

Lemma toQuery_select_status s :
  toQuery (select status_fields (sql [""; ".status"] [ASql (raw s)])
             (Some (sql ["id = 0"] [])) None)
  = Statement.select_status s.
Proof. query_text. Qed.

Lemma toQuery_select_hot_block s :
  toQuery (select hot_block_fields (sql [""; ".hot_block"] [ASql (raw s)])
             None (Some (sql ["height"] [])))
  = Statement.select_hot_block s.
Proof. query_text. Qed.

Lemma toQuery_create_status s :
  toQuery (sql ["
        CREATE TABLE IF NOT EXISTS "; ".status (
          id int4 primary key,
          height int4 not null,
          hash text DEFAULT '0x',
          nonce int4 DEFAULT 0
        )"] [ASql (raw s)])
  = Statement.create_status s.
Proof. query_text. Qed.

Lemma toQuery_create_hot_block s :
  toQuery (sql ["CREATE TABLE IF NOT EXISTS ";
                ".hot_block (height int4 primary key, hash text not null)"]
               [ASql (raw s)])
  = Statement.create_hot_block s.
Proof. query_text. Qed.

Lemma toQuery_create_hot_change_log s :
  toQuery (sql ["
        CREATE TABLE IF NOT EXISTS "; ".hot_change_log (
          block_height int4 not null references "; ".hot_block on delete cascade,
          index int4 not null,
          change jsonb not null,
          PRIMARY KEY (block_height, index)
        )"] [ASql (raw s); ASql (raw s)])
  = Statement.create_hot_change_log s.
Proof. query_text. Qed.

Lemma toQuery_insert_status s :
  toQuery (sql ["INSERT INTO ";
                ".status (id, height, hash) VALUES (0, -1, '0x')"]
               [ASql (raw s)])
  = Statement.insert_status s.
Proof. query_text. Qed.

Lemma toQuery_update_status s nonce next :
  toQuery (sql ["
      UPDATE "; ".status
      SET height = "; ", hash = "; ", nonce = nonce + 1
      WHERE id = 0 AND nonce = "; "
    "] [ASql (raw s); AVal (VNum (height next)); AVal (VStr (hash next));
      AVal (VNum nonce)])
  = Statement.update_status s nonce next.
Proof. query_text. Qed.

End Statements.

Ltac tx_unfold :=
  unfold run_callback, tx_select;
  unfold mbind, Tx_bind, mret, Tx_ret, tx_execute, tx_apply, assert, throw,
    lift, sent.

Section Loader.

Context {Domain : Type}.
Implicit Types (db : Database Domain) (st : TxState Domain).

Lemma lookup_set_namespace s ns db :
  schemas (set_namespace s ns db) !! s = Some ns.
Proof. apply lookup_insert_eq. Qed.

Lemma set_namespace_twice s ns1 ns2 db :
  set_namespace s ns2 (set_namespace s ns1 db) = set_namespace s ns2 db.
Proof. unfold set_namespace; simpl. by rewrite insert_insert_eq. Qed.

Lemma set_namespace_id s ns db :
  schemas db !! s = Some ns → set_namespace s ns db = db.
Proof.
  intros H. destruct db as [m d]; unfold set_namespace; simpl in *.
  by rewrite insert_id.
Qed.

Lemma on_namespace_Some {A} s missing (f : Namespace → Result (A * Namespace))
    db ns :
  schemas db !! s = Some ns →
  on_namespace s missing f db
  = match f ns with
    | Ok (a, ns') => Ok (a, set_namespace s ns' db)
    | Err e => Err e
    end.
Proof. intros H. unfold on_namespace. by rewrite H. Qed.

Lemma run_bind {A B} (m : Tx Domain A) (k : A → Tx Domain B) st :
  (m ≫= k) st
  = match m st with
    | (Ok a, st') => k a st'
    | (Err e, st') => (Err e, st')
    end.
Proof. reflexivity. Qed.

Lemma select_status_run s db :
  select_status s db
  = match schemas db !! s with
    | None => Err undefined_table
    | Some ns =>
        match status ns with
        | None => Err undefined_table
        | Some rows => Ok (option_list (rows !! 0), db)
        end
    end.
Proof.
  unfold select_status, on_namespace.
  destruct (schemas db !! s) as [ns|] eqn:Hns; [|done].
  destruct (status ns); [|done]. by rewrite set_namespace_id.
Qed.

Lemma select_hot_block_run s db :
  select_hot_block s db
  = match schemas db !! s with
    | None => Err undefined_table
    | Some ns =>
        match hot_block ns with
        | None => Err undefined_table
        | Some rows => Ok (sorted_blocks rows, db)
        end
    end.
Proof.
  unfold select_hot_block, on_namespace.
  destruct (schemas db !! s) as [ns|] eqn:Hns; [|done].
  destruct (hot_block ns); [|done]. by rewrite set_namespace_id.
Qed.

#[local] Arguments select_status : simpl never.
#[local] Arguments select_hot_block : simpl never.
#[local] Arguments toQuery : simpl never.
#[local] Arguments select : simpl never.
#[local] Arguments sql : simpl never.

(** The loader reads and checks; it writes nothing. *)
Lemma getState_log this st :
  getState this st
  = (load (statusSchema this) (cur st),
     logged (loader_statements (statusSchema this) (cur st)) st).
Proof.
  unfold getState, load, load_ns, logged, loader_statements, status_row0.
  tx_unfold.
  rewrite toQuery_select_status, toQuery_select_hot_block,
    select_status_run.
  destruct (schemas (cur st) !! statusSchema this) as [ns|] eqn:Hns;
    cbn; [|by rewrite lookup_empty].
  destruct (status ns) as [rows|]; cbn; [|by rewrite lookup_empty].
  destruct (rows !! 0) as [row|]; cbn; [|done].
  rewrite select_hot_block_run, Hns.
  destruct (hot_block ns) as [blocks|]; cbn;
    rewrite <- app_assoc; reflexivity.
Qed.

Lemma getState_run this st :
  ∃ lg, getState this st = (load (statusSchema this) (cur st), logged lg st).
Proof. eexists. apply getState_log. Qed.

Lemma getState_transaction this lvl db :
  result (transaction (getState this) lvl db) = load (statusSchema this) db.
Proof.
  unfold transaction.
  destruct (getState_run this {| base := db; cur := db; log := [];
                                 level := lvl |}) as [lg ->].
  reflexivity.
Qed.

Lemma load_Ok s db state :
  load s db = Ok state →
  isSafeInteger (height state) = true ∧ continuous (head state :: top state).
Proof.
  unfold load. destruct (schemas db !! s); [|done].
  rewrite load_ns_Ok. tauto.
Qed.

End Loader.

Section Connect.

Context {Domain : Type}.
Implicit Types (db : Database Domain) (st : TxState Domain).

#[local] Arguments on_namespace : simpl never.
#[local] Arguments set_namespace : simpl never.
#[local] Arguments toQuery : simpl never.
#[local] Arguments select : simpl never.
#[local] Arguments sql : simpl never.
#[local] Arguments sorted_blocks : simpl never.
#[local] Arguments assertStateInvariants : simpl never.

Ltac ns_step :=
  erewrite on_namespace_Some
    by (first [eassumption | apply lookup_set_namespace]);
  cbn; rewrite ?set_namespace_twice.

(** [connect] on the data: the namespace is provisioned and seeded, the
    loader's answer on it is returned, and all of it is committed when
    that answer is a state and undone when it is an error. *)
Lemma connect_run this db :
  let s := statusSchema this in
  let ns' := seeded (default empty_namespace (schemas db !! s)) in
  result (connect this db) = load_ns ns'
  ∧ committed (connect this db)
    = (if is_ok (load_ns ns') then set_namespace s ns' db else db)
  ∧ executed (connect this db) = connect_statements s db.
Proof.
  intros s ns'. subst s ns'.
  unfold connect, transaction, connect_body, create_schema, create_status,
    create_hot_block, create_hot_change_log, select_status, insert_status,
    select_hot_block, load_ns, seeded, connect_statements, status_row0.
  tx_unfold.
  rewrite toQuery_create_schema, toQuery_create_status,
    toQuery_create_hot_block, toQuery_create_hot_change_log,
    toQuery_select_status, toQuery_insert_status, toQuery_select_hot_block.
  cbn.
  set (s := statusSchema this).
  assert (∃ ns0 db0,
    (match schemas db !! s with
     | Some _ => Ok (tt, db)
     | None => Ok (tt, set_namespace s empty_namespace db)
     end) = Ok (tt, db0)
    ∧ schemas db0 !! s = Some ns0
    ∧ ns0 = default empty_namespace (schemas db !! s)
    ∧ ∀ ns, set_namespace s ns db0 = set_namespace s ns db)
    as (ns0 & db0 & -> & Hns0 & <- & Hset).
  { destruct (schemas db !! s) as [ns|] eqn:Hns.
    - by exists ns, db.
    - exists empty_namespace, (set_namespace s empty_namespace db).
      split_and!; [done|apply lookup_set_namespace|done|].
      intros ns. apply set_namespace_twice. }
  cbn. do 3 ns_step.
  destruct (hot_change_log ns0) as [cl|] eqn:Hcl; cbn;
    rewrite ?set_namespace_twice; ns_step.
  all: destruct (default ∅ (status ns0) !! 0) as [row|] eqn:Hrow; cbn.
  all: try (ns_step; rewrite Hrow, ?Hset; unfold state_of_row;
            by destruct (assertStateInvariants _)).
  all: ns_step; rewrite Hrow; cbn; rewrite ?set_namespace_twice; ns_step.
  all: rewrite lookup_insert_eq, ?Hset; unfold state_of_row, seed_row.
  all: by destruct (assertStateInvariants _).
Qed.

End Connect.

Section Transact.

Context {Domain : Type}.
Implicit Types (db : Database Domain) (st : TxState Domain).

#[local] Arguments on_namespace : simpl never.
#[local] Arguments set_namespace : simpl never.
#[local] Arguments toQuery : simpl never.
#[local] Arguments select : simpl never.
#[local] Arguments sql : simpl never.
#[local] Arguments update_status : simpl never.
#[local] Arguments takes_snapshot : simpl never.

Lemma attempt_run this foreign info cb db :
  let o := transaction (transact_body this foreign info cb)
             (isolationLevel this) db in
  (committed o, result o) = attempt_data this foreign info cb db.
Proof.
  unfold transaction, transact_body, attempt_data.
  rewrite run_bind.
  destruct (getState_run this
              {| base := db; cur := db; log := [];
                 level := isolationLevel this |}) as [lg ->].
  cbn [cur]. destruct (load (statusSchema this) db) as [state|e]; [|reflexivity].
  unfold precheck, updateStatus, foreign_commit, logged. tx_unfold. cbn.
  destruct (hash state =? hash (prevHead info))%string; cbn; [|done].
  destruct (height state =? height (prevHead info)); cbn; [|done].
  destruct (height (prevHead info) <? height (nextHead info)); cbn; [|done].
  destruct (hash (prevHead info) =? hash (nextHead info))%string; cbn; [done|].
  destruct (takes_snapshot (isolationLevel this)); cbn.
  all: destruct (cb _) as [db2|e]; cbn; [|done].
  all: destruct (update_status _ _ _ _) as [[k db3]|e]; cbn; done.
Qed.

End Transact.

Section Retry.

Context {Domain : Type}.
Implicit Types (db : Database Domain) (st : TxState Domain).

Lemma load_ns_not_retry ns e : load_ns ns ≠ Err (RetryError e).
Proof.
  unfold load_ns. repeat case_match; try discriminate.
  intros Hinv. by apply assertStateInvariants_Err in Hinv as [|].
Qed.

Lemma load_not_retry s db e : load s db ≠ Err (RetryError e).
Proof.
  unfold load. destruct (schemas db !! s); [apply load_ns_not_retry|done].
Qed.

Lemma precheck_Err info state e :
  precheck info state = Err e → ∃ m, e = AssertionError m.
Proof. unfold precheck. repeat case_match; intros [= <-]; eauto. Qed.

Lemma update_status_Err s n next db e :
  update_status s n next db = Err e → ∃ c, e = BackendError c.
Proof.
  unfold update_status, on_namespace, undefined_table,
    numeric_value_out_of_range.
  destruct (schemas db !! s) as [ns|]; [|intros [= <-]; eauto].
  destruct (status ns) as [rows|]; [|intros [= <-]; eauto].
  destruct (negb (in_int4 (height next) && in_int4 n)); [intros [= <-]; eauto|].
  destruct (rows !! 0) as [row|]; [|done].
  destruct (negb (row_nonce row =? n)); [done|].
  destruct (negb (in_int4 (row_nonce row + 1))); [intros [= <-]; eauto|done].
Qed.

(** An attempt asks for a retry only if the callback did. *)
Lemma attempt_data_retry this foreign info cb db e :
  (attempt_data this foreign info cb db).2 = Err (RetryError e) →
  ∃ d, cb d = Err (RetryError e).
Proof.
  unfold attempt_data.
  destruct (load _ db) as [state|e0] eqn:Hload; simpl.
  2: { intros [= ->]. by apply load_not_retry in Hload. }
  destruct (precheck info state) as [[]|e0] eqn:Hpre; simpl.
  2: { intros [= ->]. by apply precheck_Err in Hpre as [m ?]. }
  destruct (cb _) as [db2|e0] eqn:Hcb; simpl.
  2: { intros [= ->]. eauto. }
  destruct (update_status _ _ _ db2) as [[k db3]|e0] eqn:Hupd; simpl; [done|].
  intros [= ->]. by apply update_status_Err in Hupd as [c ?].
Qed.

Lemma promiseRetry_from_final {A}
    (fn : nat → Database Domain → Outcome Domain A) timeouts number db :
  (∀ e, result (fn number db) ≠ Err (RetryError e)) →
  promiseRetry_from timeouts number fn db
  = {| outcome := fn number db; attempts := number |}.
Proof.
  intros H. destruct timeouts; simpl;
    (destruct (result (fn number db)) as [a|[]] eqn:Hr; try done;
     by destruct (H retried)).
Qed.

Lemma promiseRetry_final {A} (fn : nat → Database Domain → Outcome Domain A)
    db :
  (∀ e, result (fn 1%nat db) ≠ Err (RetryError e)) →
  promiseRetry fn db = {| outcome := fn 1%nat db; attempts := 1 |}.
Proof. apply promiseRetry_from_final. Qed.

(** What [promiseRetry] answers is what its last attempt answered, and
    the attempts before that one failed. *)
Lemma promiseRetry_from_last {A} (R : relation (Database Domain))
    `{!PreOrder R} (fn : nat → Database Domain → Outcome Domain A) :
  (∀ n d e, result (fn n d) = Err e → R d (committed (fn n d))) →
  ∀ timeouts number db,
    let r := promiseRetry_from timeouts number fn db in
    ∃ d, R db d
         ∧ committed (outcome r) = committed (fn (attempts r) d)
         ∧ result (outcome r)
           = match result (fn (attempts r) d) with
             | Err (RetryError e) => Err e
             | other => other
             end.
Proof.
  intros Hfail timeouts.
  induction timeouts as [|t IH]; intros number db; simpl.
  - exists db. split; [reflexivity|].
    destruct (result (fn number db)) as [a|[]] eqn:Hr; simpl;
      rewrite ?Hr; done.
  - destruct (result (fn number db)) as [a|e] eqn:Hr; simpl.
    { exists db. rewrite Hr. split; [reflexivity|done]. }
    destruct e; simpl;
      try (exists db; rewrite Hr; split; [reflexivity|done]).
    destruct (IH (S number) (committed (fn number db))) as (d & HR & Hc & Hres).
    exists d. split; [|done].
    etrans; [|exact HR]. by eapply Hfail.
Qed.

Lemma transact_attempts this foreign info cb db :
  (∀ d e, cb d ≠ Err (RetryError e)) →
  transact this foreign info cb db
  = {| outcome := transaction (transact_body this (foreign 1%nat) info cb)
                    (isolationLevel this) db;
       attempts := 1 |}.
Proof.
  intros Hcb. unfold transact. apply promiseRetry_final.
  intros e He.
  pose proof (attempt_run this (foreign 1%nat) info cb db) as Hrun.
  simpl in Hrun.
  destruct (attempt_data_retry this (foreign 1%nat) info cb db e) as [d Hd].
  - by rewrite <- Hrun.
  - by apply Hcb in Hd.
Qed.

End Retry.

Section Claims.

Context {Domain : Type}.
Implicit Types (db : Database Domain) (st : TxState Domain).

Lemma seeded_provisioned ns rows row :
  status ns = Some rows → rows !! 0 = Some row →
  is_Some (hot_block ns) → is_Some (hot_change_log ns) →
  seeded ns = ns.
Proof.
  destruct ns as [st hb cl]; simpl. intros -> Hrow [b ->] [c ->].
  unfold seeded; simpl. by rewrite Hrow.
Qed.

Lemma seeded_seeded ns : seeded (seeded ns) = seeded ns.
Proof.
  destruct (default ∅ (status ns) !! 0) as [row|] eqn:Hrow.
  - apply (seeded_provisioned _ (default ∅ (status ns)) row);
      unfold seeded; simpl; rewrite ?Hrow; eauto.
  - apply (seeded_provisioned _ (<[0:=seed_row]> (default ∅ (status ns)))
             seed_row);
      unfold seeded; simpl; rewrite ?Hrow; eauto.
    apply lookup_insert_eq.
Qed.

Lemma load_ns_seeded ns state :
  persisted ns = Some state → load_ns (seeded ns) = load_ns ns.
Proof.
  unfold persisted, load_ns, seeded.
  destruct (status ns) as [rows|]; simpl; [|done].
  destruct (rows !! 0) as [row|] eqn:Hrow; simpl; [|done].
  destruct (hot_block ns) as [blocks|]; simpl; [|done].
  by rewrite Hrow.
Qed.

Lemma load_ns_invalid ns state :
  persisted ns = Some state → ¬ valid_state state →
  ∃ e, load_ns ns = Err e ∧ ∀ r, e ≠ RetryError r.
Proof.
  intros Hp Hbad. destruct (load_ns ns) as [state'|e] eqn:Hload.
  - apply load_ns_Ok in Hload as (Hp' & ? & ?).
    rewrite Hp in Hp'. injection Hp' as <-. by destruct Hbad.
  - exists e. split; [done|]. intros r ->. by apply load_ns_not_retry in Hload.
Qed.

(** C7. On the first connection against a fresh namespace (the schema
    does not exist yet), [connect] creates the three tables, the status
    table holding exactly one record, [id = 0] with height -1, hash
    ["0x"] and nonce 0, and returns the state with those values and an
    empty [top]. *)
Theorem connect_fresh (this : DrizzleDatabase) db :
  schemas db !! statusSchema this = None →
  result (connect this db)
    = Ok {| head := {| height := -1; hash := "0x" |}; top := []; nonce := 0 |}
  ∧ committed (connect this db)
    = set_namespace (statusSchema this)
        {| status := Some {[ 0 := seed_row ]};
           hot_block := Some ∅;
           hot_change_log := Some ∅ |} db.
Proof.
  intros Hfresh. destruct (connect_run this db) as (Hr & Hc & _).
  rewrite Hfresh in Hr, Hc. rewrite Hr, Hc. clear Hr Hc.
  unfold seeded, load_ns; simpl.
  rewrite lookup_empty, lookup_insert_eq.
  unfold sorted_blocks. rewrite map_to_list_empty. simpl.
  by rewrite insert_empty.
Qed.

(** C6. Running [connect] against an already provisioned namespace
    changes nothing in the database and returns what the loader reads
    there, the state that is persisted; and a second [connect] after a
    first one that succeeded returns the same state as the first and
    changes nothing. *)
Theorem connect_idempotent (this : DrizzleDatabase) db :
  (provisioned (statusSchema this) db →
   committed (connect this db) = db
   ∧ result (connect this db) = result (transaction (getState this) None db)
   ∧ ∀ state, result (connect this db) = Ok state →
       ∃ ns, schemas db !! statusSchema this = Some ns
             ∧ persisted ns = Some state)
  ∧ (∀ state, result (connect this db) = Ok state →
     provisioned (statusSchema this) (committed (connect this db))
     ∧ result (connect this (committed (connect this db))) = Ok state
     ∧ committed (connect this (committed (connect this db)))
       = committed (connect this db)).
Proof.
  split.
  - intros (ns & rows & row & Hns & Hst & Hrow & Hhb & Hcl).
    destruct (connect_run this db) as (Hr & Hc & _).
    rewrite Hns in Hr, Hc; simpl in Hr, Hc.
    rewrite (seeded_provisioned ns rows row) in Hr, Hc by done.
    split_and!.
    + rewrite Hc, set_namespace_id by done. by destruct (is_ok _).
    + rewrite getState_transaction. unfold load. by rewrite Hns.
    + intros state Hstate. exists ns. split; [done|].
      rewrite Hr in Hstate. by apply load_ns_Ok in Hstate as [? _].
  - intros state Hstate.
    destruct (connect_run this db) as (Hr & Hc & _).
    set (ns' := seeded (default empty_namespace
                          (schemas db !! statusSchema this))) in *.
    rewrite Hr in Hstate. rewrite Hstate in Hc; simpl in Hc. rewrite Hc.
    destruct (connect_run this (set_namespace (statusSchema this) ns' db))
      as (Hr' & Hc' & _).
    rewrite lookup_set_namespace in Hr', Hc'; simpl in Hr', Hc'.
    unfold ns' in Hr', Hc'. rewrite seeded_seeded in Hr', Hc'. fold ns' in Hr', Hc'.
    rewrite Hstate in Hc'; simpl in Hc'.
    split_and!.
    + apply load_ns_Ok in Hstate as (Hp & _).
      unfold persisted in Hp.
      destruct (status ns') as [rows|] eqn:Hrows; simpl in Hp; [|done].
      destruct (rows !! 0) as [row|] eqn:Hrow; simpl in Hp; [|done].
      exists ns', rows, row. rewrite lookup_set_namespace.
      split_and!; try done; unfold ns', seeded; simpl; eauto.
    + by rewrite Hr'.
    + by rewrite Hc', set_namespace_twice.
Qed.

(** C4. Every state that the loader returns, from [connect] and from the
    [getState] of each attempt, has [finalized head] ++ [top] strictly
    height-contiguous and a safe-integer height; a persisted state that
    violates this is rejected with an error at load time: the loader
    writes nothing, [connect] leaves the database as it was, and
    [transact] fails at once, without a retry and without a write. *)
Theorem loader_returns_valid_states (this : DrizzleDatabase) :
  (∀ st state st', getState this st = (Ok state, st') → valid_state state)
  ∧ (∀ db state, result (connect this db) = Ok state → valid_state state)
  ∧ (∀ st ns state,
       schemas (cur st) !! statusSchema this = Some ns →
       persisted ns = Some state → ¬ valid_state state →
       ∃ e st', getState this st = (Err e, st')
                ∧ cur st' = cur st ∧ base st' = base st)
  ∧ (∀ db ns state,
       schemas db !! statusSchema this = Some ns →
       persisted ns = Some state → ¬ valid_state state →
       ∃ e, result (connect this db) = Err e
            ∧ committed (connect this db) = db)
  ∧ (∀ foreign info cb db ns state,
       schemas db !! statusSchema this = Some ns →
       persisted ns = Some state → ¬ valid_state state →
       let r := transact this foreign info cb db in
       ∃ e, result (outcome r) = Err e ∧ committed (outcome r) = db
            ∧ attempts r = 1%nat).
Proof.
  split_and!.
  - intros st state st' H. destruct (getState_run this st) as [lg Hrun].
    rewrite Hrun in H. injection H as H _.
    apply load_Ok in H as [? ?]. by split.
  - intros db state H. destruct (connect_run this db) as (Hr & _ & _).
    rewrite Hr in H. apply load_ns_Ok in H as (_ & ? & ?). by split.
  - intros st ns state Hns Hp Hbad.
    destruct (getState_run this st) as [lg Hrun].
    destruct (load_ns_invalid ns state Hp Hbad) as (e & He & _).
    exists e, (logged lg st). rewrite Hrun. unfold load. by rewrite Hns, He.
  - intros db ns state Hns Hp Hbad.
    destruct (connect_run this db) as (Hr & Hc & _).
    destruct (load_ns_invalid ns state Hp Hbad) as (e & He & _).
    rewrite Hns in Hr, Hc; simpl in Hr, Hc.
    rewrite (load_ns_seeded ns state Hp), He in Hr, Hc.
    exists e. by rewrite Hr, Hc.
  - intros foreign info cb db ns state Hns Hp Hbad r.
    destruct (load_ns_invalid ns state Hp Hbad) as (e & He & Hnr).
    pose proof (attempt_run this (foreign 1%nat) info cb db) as Hrun.
    unfold attempt_data, load in Hrun. rewrite Hns, He in Hrun.
    simpl in Hrun. injection Hrun as Hc Hres.
    subst r. unfold transact. rewrite promiseRetry_final.
    + cbn [outcome attempts]. exists e. by rewrite Hc, Hres.
    + intros r. rewrite Hres. intros [= ->]. by eapply Hnr.
Qed.

Lemma precheck_violation info state :
  height (nextHead info) <= height (prevHead info)
  ∨ hash (nextHead info) = hash (prevHead info)
  ∨ head state ≠ prevHead info →
  ∃ m, precheck info state = Err (AssertionError m).
Proof.
  intros H. unfold precheck.
  destruct (String.eqb_spec (hash state) (hash (prevHead info))) as [Hh|Hh];
    simpl; [|eauto].
  destruct (Z.eqb_spec (height state) (height (prevHead info))) as [Hz|Hz];
    simpl; [|eauto].
  destruct (Z.ltb_spec (height (prevHead info)) (height (nextHead info)));
    simpl; [|eauto].
  destruct (String.eqb_spec (hash (prevHead info)) (hash (nextHead info)));
    simpl; [eauto|].
  destruct H as [H|[H|H]]; [lia|congruence|].
  destruct H. destruct (head state), (prevHead info); simpl in *. congruence.
Qed.

(** An attempt whose checks fail stops there, whatever the callback and
    the other processes would have done. *)
Lemma attempt_stops_early this info db state e :
  load (statusSchema this) db = Ok state →
  precheck info state = Err e →
  ∃ lg, ∀ foreign cb,
    transaction (transact_body this foreign info cb) (isolationLevel this) db
    = {| committed := db; result := Err e; executed := lg |}.
Proof.
  intros Hload Hpre.
  destruct (getState_run this {| base := db; cur := db; log := [];
                                 level := isolationLevel this |}) as [lg Hrun].
  exists lg. intros foreign cb.
  unfold transaction, transact_body. rewrite run_bind, Hrun. cbn [cur].
  rewrite Hload. revert Hpre. unfold precheck. tx_unfold.
  destruct (hash state =? hash (prevHead info))%string; simpl;
    [|by intros [= <-]].
  destruct (height state =? height (prevHead info)); simpl;
    [|by intros [= <-]].
  destruct (height (prevHead info) <? height (nextHead info)); simpl;
    [|by intros [= <-]].
  destruct (hash (prevHead info) =? hash (nextHead info))%string; simpl;
    [by intros [= <-]|done].
Qed.

Lemma attempt_stops_at_load this info db e :
  load (statusSchema this) db = Err e →
  ∃ lg, ∀ foreign cb,
    transaction (transact_body this foreign info cb) (isolationLevel this) db
    = {| committed := db; result := Err e; executed := lg |}.
Proof.
  intros Hload.
  destruct (getState_run this {| base := db; cur := db; log := [];
                                 level := isolationLevel this |}) as [lg Hrun].
  exists lg. intros foreign cb.
  unfold transaction, transact_body. rewrite run_bind, Hrun. cbn [cur].
  by rewrite Hload.
Qed.

(** C5. A call of [transact] whose [info] violates the preconditions
    (the next height is not above the previous one, or the two hashes are
    equal, or the head that is loaded is not [prevHead]) fails in its
    first and only attempt, on an assertion when a state was loaded,
    leaves the database as it was, and does all this before the callback
    runs: the outcome is the same whatever the callback and the other
    processes would do. *)
Theorem transact_checks_before_mutation (this : DrizzleDatabase)
    foreign info cb db :
  height (nextHead info) <= height (prevHead info)
  ∨ hash (nextHead info) = hash (prevHead info)
  ∨ (∀ state,
       result (transaction (getState this) (isolationLevel this) db) = Ok state →
       head state ≠ prevHead info) →
  let r := transact this foreign info cb db in
  (∃ e, result (outcome r) = Err e
        ∧ ∀ state,
            result (transaction (getState this) (isolationLevel this) db)
            = Ok state →
            ∃ m, e = AssertionError m)
  ∧ committed (outcome r) = db
  ∧ attempts r = 1%nat
  ∧ ∀ foreign' cb', transact this foreign' info cb' db = r.
Proof.
  rewrite getState_transaction. intros Hbad r.
  assert (∃ e lg,
    (∀ state, load (statusSchema this) db = Ok state → ∃ m, e = AssertionError m)
    ∧ (∀ x, e ≠ RetryError x)
    ∧ ∀ foreign' cb',
        transaction (transact_body this foreign' info cb')
          (isolationLevel this) db
        = {| committed := db; result := Err e; executed := lg |})
    as (e & lg & Hassert & Hfinal & Hlg).
  { destruct (load (statusSchema this) db) as [state|e] eqn:Hload.
    - destruct (precheck_violation info state) as [m Hpre].
      { destruct Hbad as [?|[?|Hhead]]; auto. }
      destruct (attempt_stops_early this info db state _ Hload Hpre)
        as [lg Hlg].
      exists (AssertionError m), lg. split_and!; [eauto|done|done].
    - destruct (attempt_stops_at_load this info db e Hload) as [lg Hlg].
      exists e, lg. split_and!; [done| |done].
      intros x ->. by apply load_not_retry in Hload. }
  assert (∀ foreign' cb',
    transact this foreign' info cb' db
    = {| outcome := {| committed := db; result := Err e; executed := lg |};
         attempts := 1 |}) as Hall.
  { intros foreign' cb'. unfold transact.
    rewrite promiseRetry_final; rewrite Hlg; [done|].
    intros x [= ->]. by eapply Hfinal. }
  subst r. rewrite Hall. cbn [outcome attempts committed result].
  split_and!; eauto.
Qed.

Lemma update_status_row s n next db k db' :
  update_status s n next db = Ok (k, db') → status_row_update s db db'.
Proof.
  unfold update_status, on_namespace.
  destruct (schemas db !! s) as [ns|] eqn:Hns; [|done].
  destruct (status ns) as [rows|] eqn:Hrows; [|done].
  destruct (negb (in_int4 (height next) && in_int4 n)); [done|].
  destruct (rows !! 0) as [row|] eqn:Hrow.
  - destruct (negb (row_nonce row =? n)).
    + intros [= <- <-]. rewrite set_namespace_id by done. constructor.
    + destruct (negb (in_int4 (row_nonce row + 1))); [done|].
      intros [= <- <-]. by eapply row_changed.
  - intros [= <- <-]. rewrite set_namespace_id by done. constructor.
Qed.

Lemma status_row_update_hot_tables s db db' :
  status_row_update s db db' → hot_tables s db' = hot_tables s db.
Proof.
  intros [|ns rows row Hns _ _]; [done|].
  unfold hot_tables. by rewrite lookup_set_namespace, Hns.
Qed.

(** Every attempt, failed or not, moves the database along [R] when the
    callback, the other processes and a change of the status row 0 do. *)
Lemma attempt_data_frame (R : relation (Database Domain)) `{!PreOrder R}
    this foreign info cb db :
  (∀ d d', status_row_update (statusSchema this) d d' → R d d') →
  (∀ d d', cb d = Ok d' → R d d') →
  (∀ d, R d (foreign d)) →
  R db (attempt_data this foreign info cb db).1.
Proof.
  intros Hrow Hcb Hforeign. unfold attempt_data.
  destruct (load _ db) as [state|]; [|done].
  destruct (precheck info state) as [[]|]; [|done].
  set (db1 := if takes_snapshot _ then db else foreign db).
  assert (R db db1) as H1.
  { unfold db1. by destruct (takes_snapshot _). }
  destruct (cb db1) as [db2|] eqn:Hdb2; [|done].
  destruct (update_status _ _ _ db2) as [[k db3]|] eqn:Hdb3; [|done].
  simpl. etrans; [exact H1|]. etrans; [by apply Hcb|].
  by eapply Hrow, update_status_row.
Qed.

Lemma transact_frame_gen (R : relation (Database Domain)) `{!PreOrder R}
    this foreign info cb db :
  (∀ d d', status_row_update (statusSchema this) d d' → R d d') →
  (∀ d d', cb d = Ok d' → R d d') →
  (∀ n d, R d (foreign n d)) →
  R db (committed (outcome (transact this foreign info cb db))).
Proof.
  intros Hrow Hcb Hforeign.
  assert (∀ n d,
    R d (committed (transaction (transact_body this (foreign n) info cb)
                      (isolationLevel this) d))) as Hstep.
  { intros n d.
    pose proof (attempt_run this (foreign n) info cb d) as Hrun.
    simpl in Hrun.
    pose proof (attempt_data_frame R this (foreign n) info cb d Hrow Hcb
                  (Hforeign n)) as HR.
    by rewrite <- Hrun in HR. }
  unfold transact, promiseRetry.
  destruct (promiseRetry_from_last R
              (λ n, transaction (transact_body this (foreign n) info cb)
                      (isolationLevel this))
              (λ n d e _, Hstep n d) 10 1%nat db) as (d & HR & -> & _).
  etrans; [exact HR|]. apply Hstep.
Qed.

Lemma lookup_with_change_log s cl db :
  schemas (with_change_log s cl db) !! s
  = put_change_log cl <$> schemas db !! s.
Proof. apply lookup_alter_eq. Qed.

Lemma set_namespace_with_change_log s cl ns db :
  set_namespace s (put_change_log cl ns) (with_change_log s cl db)
  = with_change_log s cl (set_namespace s ns db).
Proof.
  unfold set_namespace, with_change_log; simpl. f_equal.
  rewrite alter_insert_eq. apply map_eq. intros i.
  destruct (decide (i = s)) as [->|Hne].
  - by rewrite !lookup_insert_eq.
  - by rewrite !lookup_insert_ne, lookup_alter_ne.
Qed.

Lemma load_with_change_log s cl db :
  load s (with_change_log s cl db) = load s db.
Proof.
  unfold load. rewrite lookup_with_change_log.
  by destruct (schemas db !! s).
Qed.

Lemma update_status_with_change_log s cl n next db :
  update_status s n next (with_change_log s cl db)
  = map_result (λ r, (r.1, with_change_log s cl r.2))
      (update_status s n next db).
Proof.
  unfold update_status, on_namespace. rewrite lookup_with_change_log.
  destruct (schemas db !! s) as [ns|]; simpl; [|done].
  destruct (status ns) as [rows|]; [|done].
  destruct (negb (in_int4 (height next) && in_int4 n)); [done|].
  destruct (rows !! 0) as [row|]; simpl.
  - destruct (negb (row_nonce row =? n)); simpl.
    { by rewrite <- set_namespace_with_change_log. }
    destruct (negb (in_int4 (row_nonce row + 1))); simpl; [done|].
    by rewrite <- set_namespace_with_change_log.
  - by rewrite <- set_namespace_with_change_log.
Qed.

(** An attempt does not look at the change log. *)
Lemma attempt_data_with_change_log this foreign info cb cl db :
  let wcl := with_change_log (statusSchema this) cl in
  (∀ d, cb (wcl d) = map_result wcl (cb d)) →
  (∀ d, foreign (wcl d) = wcl (foreign d)) →
  attempt_data this foreign info cb (wcl db)
  = ((wcl (attempt_data this foreign info cb db).1),
     (attempt_data this foreign info cb db).2).
Proof.
  intros wcl Hcb Hforeign. unfold attempt_data.
  subst wcl. rewrite load_with_change_log.
  destruct (load _ db) as [state|]; [|done].
  destruct (precheck info state) as [[]|]; [|done].
  set (wcl := with_change_log (statusSchema this) cl) in *.
  assert ((if takes_snapshot (isolationLevel this) then wcl db
           else foreign (wcl db))
          = wcl (if takes_snapshot (isolationLevel this) then db
                 else foreign db)) as ->.
  { destruct (takes_snapshot _); [done|apply Hforeign]. }
  rewrite Hcb. destruct (cb _) as [db2|]; simpl; [|done].
  unfold wcl. rewrite update_status_with_change_log.
  by destruct (update_status _ _ _ db2) as [[k db3]|].
Qed.

Lemma promiseRetry_from_map {A} (g : Database Domain → Database Domain)
    (fn : nat → Database Domain → Outcome Domain A) :
  (∀ n d, committed (fn n (g d)) = g (committed (fn n d))
          ∧ result (fn n (g d)) = result (fn n d)) →
  ∀ timeouts number db,
    let r := promiseRetry_from timeouts number fn db in
    let r' := promiseRetry_from timeouts number fn (g db) in
    committed (outcome r') = g (committed (outcome r))
    ∧ result (outcome r') = result (outcome r)
    ∧ attempts r' = attempts r.
Proof.
  intros Hfn timeouts.
  induction timeouts as [|t IH]; intros number db r r'; subst r r';
    destruct (Hfn number db) as [Hc Hr]; cbn [promiseRetry_from];
    rewrite Hr; destruct (result (fn number db)) as [a|[]] eqn:E;
    cbn [outcome attempts committed result]; rewrite ?Hr, ?E; try done.
  rewrite Hc. apply (IH (S number) (committed (fn number db))).
Qed.

Lemma attempt_committed this foreign info cb db :
  committed (transaction (transact_body this foreign info cb)
               (isolationLevel this) db)
  = (attempt_data this foreign info cb db).1.
Proof. by rewrite <- (attempt_run this foreign info cb db). Qed.

Lemma attempt_result this foreign info cb db :
  result (transaction (transact_body this foreign info cb)
            (isolationLevel this) db)
  = (attempt_data this foreign info cb db).2.
Proof. by rewrite <- (attempt_run this foreign info cb db). Qed.

(** C9 (amended). [transact] never writes the [hot_block] and
    [hot_change_log] tables and never reads [hot_change_log]: when the
    callback and the other processes leave the two tables alone, they
    are after the call what they were before, whether it succeeded or
    failed; what the call itself writes is confined to the status row 0
    (on success the database is what the callback left, up to that row;
    on failure it holds no write of the call); and the call answers the
    same whatever the change log holds.  It does read [hot_block],
    through [getState]. *)
Theorem transact_writes_only_status_row (this : DrizzleDatabase)
    foreign info cb db :
  let s := statusSchema this in
  let r := transact this foreign info cb db in
  ((∀ d d', cb d = Ok d' → hot_tables s d' = hot_tables s d) →
   (∀ n d, hot_tables s (foreign n d) = hot_tables s d) →
   hot_tables s (committed (outcome r)) = hot_tables s db)
  ∧ ((∀ d e, cb d ≠ Err (RetryError e)) →
     let db1 :=
       if takes_snapshot (isolationLevel this) then db
       else foreign 1%nat db in
     match result (outcome r) with
     | Ok _ =>
         ∃ db2, cb db1 = Ok db2
                ∧ status_row_update s db2 (committed (outcome r))
     | Err _ => committed (outcome r) = db ∨ committed (outcome r) = db1
     end)
  ∧ (∀ cl,
     let wcl := with_change_log s cl in
     (∀ d, cb (wcl d) = map_result wcl (cb d)) →
     (∀ n d, foreign n (wcl d) = wcl (foreign n d)) →
     let r' := transact this foreign info cb (wcl db) in
     result (outcome r') = result (outcome r)
     ∧ committed (outcome r') = wcl (committed (outcome r))
     ∧ attempts r' = attempts r).
Proof.
  intros s r. split_and!.
  - intros Hcb Hforeign.
    set (R := λ d d' : Database Domain, hot_tables s d' = hot_tables s d).
    assert (PreOrder R) as HR.
    { split; [by intros d|]. intros d1 d2 d3 H12 H23. unfold R in *.
      congruence. }
    apply (transact_frame_gen R); [|done..].
    intros d d'. apply status_row_update_hot_tables.
  - intros Hcb db1. subst r. rewrite (transact_attempts _ _ _ _ _ Hcb).
    cbn [outcome].
    rewrite attempt_committed, attempt_result. unfold attempt_data.
    destruct (load _ db) as [state|]; simpl; [|by left].
    destruct (precheck info state) as [[]|]; simpl; [|by left].
    fold db1. destruct (cb db1) as [db2|] eqn:Hdb2; simpl; [|by right].
    destruct (update_status _ _ _ db2) as [[k db3]|] eqn:Hdb3; simpl;
      [|by right].
    exists db2. split; [done|]. by eapply update_status_row.
  - intros cl wcl Hcb Hforeign r'. subst r r'. unfold transact, promiseRetry.
    destruct (promiseRetry_from_map wcl
                (λ n, transaction (transact_body this (foreign n) info cb)
                        (isolationLevel this))) with (timeouts := 10%nat)
      (number := 1%nat) (db := db) as (Hc & Hr & Ha); [|done].
    intros n d. rewrite !attempt_committed, !attempt_result.
    by rewrite (attempt_data_with_change_log _ _ _ _ cl d Hcb (Hforeign n)).
Qed.

(** A successful call, when the callback asks for no retry: the state
    was loaded and passed the checks, the callback ran on what the other
    processes had left, and the status row 0 was advanced if, and only
    if, its nonce was still the one that had been loaded. *)
Lemma transact_success this foreign info cb db :
  (∀ d e, cb d ≠ Err (RetryError e)) →
  let s := statusSchema this in
  let r := transact this foreign info cb db in
  let db1 :=
    if takes_snapshot (isolationLevel this) then db else foreign 1%nat db in
  result (outcome r) = Ok tt →
  ∃ state db2 ns rows,
    load s db = Ok state ∧ precheck info state = Ok tt ∧ cb db1 = Ok db2
    ∧ schemas db2 !! s = Some ns ∧ status ns = Some rows
    ∧ committed (outcome r)
      = match rows !! 0 with
        | Some row =>
            if row_nonce row =? nonce state then
              set_namespace s
                {| status :=
                     Some (<[0 := {| row_height := height (nextHead info);
                                     row_hash := hash (nextHead info);
                                     row_nonce := nonce state + 1 |}]> rows);
                   hot_block := hot_block ns;
                   hot_change_log := hot_change_log ns |} db2
            else db2
        | None => db2
        end.
Proof.
  intros Hcb s r db1. subst r. rewrite (transact_attempts _ _ _ _ _ Hcb).
  cbn [outcome].
  rewrite attempt_committed, attempt_result. unfold attempt_data.
  destruct (load _ db) as [state|] eqn:Hload; simpl; [|done].
  destruct (precheck info state) as [[]|] eqn:Hpre; simpl; [|done].
  fold db1. destruct (cb db1) as [db2|] eqn:Hdb2; simpl; [|done].
  unfold update_status, on_namespace. fold s.
  destruct (schemas db2 !! s) as [ns|] eqn:Hns; [|done].
  destruct (status ns) as [rows|] eqn:Hrows; [|done].
  destruct (negb (in_int4 (height (nextHead info)) && in_int4 (nonce state)));
    [done|].
  intros Hres. exists state, db2, ns, rows.
  do 5 (split; [done|]).
  revert Hres. destruct (rows !! 0) as [row|]; simpl.
  - destruct (Z.eqb_spec (row_nonce row) (nonce state)) as [->|]; simpl.
    + by destruct (negb (in_int4 (nonce state + 1))).
    + by rewrite set_namespace_id.
  - by rewrite set_namespace_id.
Qed.

End Claims.

Section SchemaName.

Context {Domain : Type}.
Implicit Types (db : Database Domain) (st : TxState Domain).

Lemma updateStatus_log this nonce next st :
  log (updateStatus this nonce next st).2
  = log st ++ [Statement.update_status (statusSchema this) nonce next].
Proof.
  unfold updateStatus. tx_unfold. rewrite toQuery_update_status.
  by destruct (update_status _ _ _ _) as [[k d]|].
Qed.

Lemma statements_embed s q :
  q ∈ [Statement.create_schema s; Statement.create_status s;
       Statement.create_hot_block s; Statement.create_hot_change_log s;
       Statement.select_status s; Statement.insert_status s;
       Statement.select_hot_block s] →
  embeds s (text q) ∧ params q = [].
Proof.
  intros Hq. repeat (apply elem_of_cons in Hq as [->|Hq]);
    [..|by apply elem_of_nil in Hq]; (split; [|done]); simpl.
  - exists "CREATE SCHEMA IF NOT EXISTS ", "". by rewrite append_nil_r.
  - by eexists _, _.
  - by eexists _, _.
  - by eexists _, _.
  - by eexists _, _.
  - by eexists _, _.
  - by eexists _, _.
Qed.

(** C10. Whatever [stateSchema] is configured (["squid_processor"] when
    none is), the statements that [connect], [getState] and
    [updateStatus] send hold that string as it is, inside their text and
    not among their bound parameters (the only parameters are the
    height, the hash and the nonce of [updateStatus], which never reach
    the text); so a name with SQL metacharacters changes what the
    statements are: with a semicolon in it, the first statement of
    [connect] is two commands. *)
Theorem schema_name_is_raw_sql (options : option DrizzleDatabaseOptions) :
  let this := new_DrizzleDatabase options in
  let s := default "squid_processor" (options ≫= opt_stateSchema) in
  (∀ db, executed (connect this db) = connect_statements s db)
  ∧ (∀ st, log (getState this st).2 = log st ++ loader_statements s (cur st))
  ∧ (∀ st nonce next,
       log (updateStatus this nonce next st).2
       = log st ++ [Statement.update_status s nonce next])
  ∧ (∀ db q, q ∈ connect_statements s db → embeds s (text q) ∧ params q = [])
  ∧ (∀ db q, q ∈ loader_statements s db → embeds s (text q) ∧ params q = [])
  ∧ (∀ nonce next,
       embeds s (text (Statement.update_status s nonce next))
       ∧ params (Statement.update_status s nonce next)
         = [VNum (height next); VStr (hash next); VNum nonce]
       ∧ ∀ nonce' next',
           text (Statement.update_status s nonce' next')
           = text (Statement.update_status s nonce next))
  ∧ count_statements (text (Statement.create_schema "squid_processor")) = 1%nat
  ∧ count_statements
      (text (Statement.create_schema "x; DROP SCHEMA public CASCADE"))
    = 2%nat.
Proof.
  intros this s.
  assert (statusSchema this = s) as Hs by done.
  split_and!.
  - intros db. rewrite <- Hs. apply connect_run.
  - intros st. rewrite <- Hs, getState_log. done.
  - intros st nonce next. rewrite <- Hs. apply updateStatus_log.
  - intros db q Hq. apply statements_embed.
    unfold connect_statements in Hq.
    destruct (status_row0 s db); simpl in Hq;
      repeat (apply elem_of_cons in Hq as [->|Hq]);
      try (by apply elem_of_nil in Hq);
      repeat (first [apply list_elem_of_here | apply list_elem_of_further]).
  - intros db q Hq. apply statements_embed.
    unfold loader_statements in Hq.
    destruct (status_row0 s db);
      repeat (apply elem_of_cons in Hq as [->|Hq]);
      try (by apply elem_of_nil in Hq);
      repeat (first [apply list_elem_of_here | apply list_elem_of_further]).
  - intros nonce next. split_and!; [|done..]. by eexists _, _.
  - reflexivity.
  - reflexivity.
Qed.

End SchemaName.

(** * The scenarios, run *)

Import Scenario.

(** The end-to-end example of the specification: from height -1, hash
    ["0x"], nonce 0, the call for block 0 with a callback that inserts one
    row leaves height 0, hash ["genesis"], nonce 1 and the row. *)
Example transact_genesis :
  let r := transact this alone genesis (insert_row "row of this processor")
             connected in
  result (outcome r) = Ok tt
  ∧ attempts r = 1%nat
  ∧ status_row0 (statusSchema this) (committed (outcome r))
    = Some {| row_height := 0; row_hash := "genesis"; row_nonce := 1 |}
  ∧ domain (committed (outcome r)) = ["row of this processor"].
Proof. vm_compute. done. Qed.

(** C1, the code at the failing input.  This processor has loaded the
    state (nonce 0) when another processor commits its own block 0 and
    bumps the nonce to 1.  The update of this processor, conditioned on
    nonce 0, then changes zero rows; the attempt is not treated as a race:
    the call succeeds, in one attempt, its row is committed, and the
    status row is the other processor's. *)
Theorem zero_rows_updated_is_a_success :
  let mine := insert_row "row of this processor" in
  let r := transact this (λ _, other_processor) genesis mine connected in
  result (transaction (getState this) (isolationLevel this) connected)
    = Ok {| head := block (-1) "0x"; top := []; nonce := 0 |}
  ∧ match mine (other_processor connected) with
    | Ok db2 =>
        update_status (statusSchema this) 0 (nextHead genesis) db2
        = Ok (0%nat, db2)
    | Err _ => False
    end
  ∧ result (outcome r) = Ok tt
  ∧ attempts r = 1%nat
  ∧ status_row0 (statusSchema this) (committed (outcome r))
    = Some {| row_height := 0; row_hash := "other-0"; row_nonce := 1 |}
  ∧ domain (committed (outcome r))
    = ["row of the other processor, block 0"; "row of this processor"].
Proof. vm_compute. done. Qed.

(** C2, the code at the failing input.  The other processor commits two
    blocks between the load and the update of this one.  The call of this
    processor, [prevHead] (-1, "0x") and [nextHead] (0, "genesis"),
    succeeds and its row is committed, but the status row is not at
    [nextHead] and its nonce is not the loaded nonce plus one. *)
Theorem success_without_advancing :
  let r := transact this (λ _, other_processor_twice) genesis
             (insert_row "row of this processor") connected in
  result (transaction (getState this) (isolationLevel this) connected)
    = Ok {| head := block (-1) "0x"; top := []; nonce := 0 |}
  ∧ result (outcome r) = Ok tt
  ∧ status_row0 (statusSchema this) (committed (outcome r))
    = Some {| row_height := 1; row_hash := "other-1"; row_nonce := 2 |}
  ∧ domain (committed (outcome r))
    = ["row of the other processor, block 0";
       "row of the other processor, block 1"; "row of this processor"].
Proof. vm_compute. done. Qed.

(** C3, the code at the failing input.  The other processor has committed
    its block 0 before this one calls [transact] for its own block 0: the
    expected head does not match, a detected race.  The call is rejected
    with the race message after one attempt: the state was loaded once
    and nothing was run again. *)
Theorem race_is_not_retried :
  let r := transact this alone genesis (insert_row "row of this processor")
             (other_processor connected) in
  result (outcome r) = Err (AssertionError (Some RACE_MSG))
  ∧ attempts r = 1%nat
  ∧ executed (outcome r)
    = [Statement.select_status "squid_processor";
       Statement.select_hot_block "squid_processor"]
  ∧ committed (outcome r) = other_processor connected.
Proof. vm_compute. done. Qed.

(** C9 as stated, refuted: [transact] reads [hot_block].  Two databases
    that differ in the hot blocks only, one with the block 0 on top of the
    finalized head -1 and one with the block 1 there, get different
    answers from the same call. *)
Lemma transact_reads_hot_block :
  ¬ (∀ blocks blocks' : gmap Z string,
       result (outcome (transact this alone genesis Ok
                          (with_hot_blocks blocks)))
       = result (outcome (transact this alone genesis Ok
                            (with_hot_blocks blocks')))).
Proof.
  intros H. specialize (H {[ 0 := "h0" ]} {[ 1 := "h1" ]}).
  vm_compute in H. discriminate.
Qed.

(** C8. The reconciliation round trip, for a callback that writes the
    caller's tables only: from the held chain, [reconcile] returns; the
    callback is run on the finalized slice [0, 1) (block (7, "c2")) with
    the hot block 7 ("c") rolled back, its change log gone with it, and
    then on the slice [1, 2) with the block (8, "d") persisted; at the end
    the status row is at (7, "c2") with the nonce one up, and (8, "d") is
    the only hot block. *)
Theorem reconcile_round_trip {Domain : Type}
    (f : Z → Z → Database Domain → Domain) (rows : Domain) :
  let s := statusSchema this in
  let r := reconcile this 3 reorg (domain_callback f) (held rows) in
  let rolled_back : Database Domain :=
    {| schemas :=
         {[ s := {| status := status held_namespace;
                    hot_block := Some (<[5 := "a"]> {[ 6 := "b" ]});
                    hot_change_log := Some {[ (5, 0) := "change of a" ]} |} ]};
       domain := rows |} in
  let appended : Database Domain :=
    {| schemas :=
         {[ s := {| status := status held_namespace;
                    hot_block :=
                      Some (<[5 := "a"]> (<[6 := "b"]> {[ 8 := "d" ]}));
                    hot_change_log := Some {[ (5, 0) := "change of a" ]} |} ]};
       domain := f 0 1 rolled_back |} in
  result r = Ok tt
  ∧ committed r
    = {| schemas :=
           {[ s := {| status := Some {[ 0 := {| row_height := 7;
                                                row_hash := "c2";
                                                row_nonce := 4 |} ]};
                      hot_block := Some {[ 8 := "d" ]};
                      hot_change_log := Some ∅ |} ]};
         domain := f 1 2 appended |}
  ∧ select_hot_block s (committed r) = Ok ([block 8 "d"], committed r).
Proof. vm_compute. done. Qed.

(** * The theorems at work on the scenarios *)

Lemma connect_fresh_witness :
  schemas fresh !! statusSchema this = None
  ∧ result (connect this fresh)
    = Ok {| head := block (-1) "0x"; top := []; nonce := 0 |}
  ∧ committed (connect this fresh)
    = set_namespace (statusSchema this)
        {| status := Some {[ 0 := seed_row ]}; hot_block := Some ∅;
           hot_change_log := Some ∅ |} fresh.
Proof.
  split; [reflexivity|]. apply (connect_fresh this fresh). reflexivity.
Defined.

Lemma connected_provisioned : provisioned (statusSchema this) connected.
Proof.
  unfold provisioned. do 3 eexists.
  split; [vm_compute; reflexivity|].
  split; [vm_compute; reflexivity|].
  split; [vm_compute; reflexivity|].
  split; eexists; vm_compute; reflexivity.
Defined.

Lemma connect_idempotent_witness :
  (committed (connect this connected) = connected
   ∧ result (connect this connected)
     = result (transaction (getState this) None connected))
  ∧ result (connect this (committed (connect this fresh)))
    = Ok {| head := block (-1) "0x"; top := []; nonce := 0 |}
  ∧ committed (connect this (committed (connect this fresh)))
    = committed (connect this fresh).
Proof.
  split.
  - destruct (proj1 (connect_idempotent this connected) connected_provisioned)
      as (Hc & Hr & _).
    split; [exact Hc | exact Hr].
  - destruct (proj2 (connect_idempotent this fresh)
                {| head := block (-1) "0x"; top := []; nonce := 0 |})
      as (_ & Hr & Hc).
    + vm_compute. reflexivity.
    + split; [exact Hr | exact Hc].
Defined.

(** A persisted state with a gap: finalized head -1, hot block 1. *)
Lemma loader_returns_valid_states_witness :
  valid_state {| head := block (-1) "0x"; top := []; nonce := 0 |}
  ∧ (∃ e, result (connect this (with_hot_blocks {[ 1 := "h1" ]})) = Err e
          ∧ committed (connect this (with_hot_blocks {[ 1 := "h1" ]}))
            = with_hot_blocks {[ 1 := "h1" ]})
  ∧ (let r := transact this alone genesis (insert_row "row of this processor")
                (with_hot_blocks {[ 1 := "h1" ]}) in
     ∃ e, result (outcome r) = Err e
          ∧ committed (outcome r) = with_hot_blocks {[ 1 := "h1" ]}
          ∧ attempts r = 1%nat).
Proof.
  assert (¬ valid_state {| head := block (-1) "0x"; top := [block 1 "h1"];
                           nonce := 0 |}) as Hgap.
  { intros [Hc _]. specialize (Hc 0%nat (block (-1) "0x") (block 1 "h1")
                                 eq_refl eq_refl).
    vm_compute in Hc. discriminate. }
  destruct (loader_returns_valid_states (Domain := Rows) this)
    as (_ & Hconnect & _ & Hreject & Hfatal).
  split; [|split].
  - apply (Hconnect fresh). vm_compute. reflexivity.
  - eapply (Hreject (with_hot_blocks {[ 1 := "h1" ]})); [..|exact Hgap].
    + vm_compute. reflexivity.
    + vm_compute. reflexivity.
  - eapply (Hfatal alone genesis (insert_row "row of this processor")
              (with_hot_blocks {[ 1 := "h1" ]})); [..|exact Hgap].
    + vm_compute. reflexivity.
    + vm_compute. reflexivity.
Defined.

(** A call whose next height is not above the previous one. *)
Lemma transact_checks_before_mutation_witness :
  let info := advance (block (-1) "0x") (block (-1) "again") in
  let r := transact this alone info (insert_row "row of this processor")
             connected in
  (∃ e, result (outcome r) = Err e
        ∧ ∀ state,
            result (transaction (getState this) (isolationLevel this) connected)
            = Ok state →
            ∃ m, e = AssertionError m)
  ∧ committed (outcome r) = connected
  ∧ attempts r = 1%nat
  ∧ ∀ foreign' cb', transact this foreign' info cb' connected = r.
Proof.
  apply (transact_checks_before_mutation this alone
           (advance (block (-1) "0x") (block (-1) "again"))
           (insert_row "row of this processor") connected).
  left. vm_compute. discriminate.
Defined.

Lemma transact_writes_only_status_row_witness :
  let s := statusSchema this in
  let mine := insert_row "row of this processor" in
  let r := transact this alone genesis mine connected in
  hot_tables s (committed (outcome r)) = hot_tables s connected
  ∧ match result (outcome r) with
    | Ok _ =>
        ∃ db2, mine connected = Ok db2
               ∧ status_row_update s db2 (committed (outcome r))
    | Err _ =>
        committed (outcome r) = connected ∨ committed (outcome r) = connected
    end
  ∧ (let wcl := with_change_log s None in
     let r' := transact this alone genesis mine (wcl connected) in
     result (outcome r') = result (outcome r)
     ∧ committed (outcome r') = wcl (committed (outcome r))
     ∧ attempts r' = attempts r).
Proof.
  intros s mine r.
  destruct (transact_writes_only_status_row this alone genesis mine connected)
    as (Hhot & Hrow & Hlog).
  split; [|split].
  - apply Hhot.
    + intros d d' H. injection H as <-. reflexivity.
    + intros n d. reflexivity.
  - apply Hrow. intros d e H. discriminate H.
  - apply Hlog.
    + intros d. reflexivity.
    + intros n d. reflexivity.
Defined.

Lemma schema_name_is_raw_sql_witness :
  embeds "squid_processor"
    (text (Statement.insert_status "squid_processor"))
  ∧ params (Statement.insert_status "squid_processor") = [].
Proof.
  apply (proj1 (proj2 (proj2 (proj2 (schema_name_is_raw_sql
                                       (Domain := Rows) None)))) fresh).
  vm_compute. do 5 apply list_elem_of_further. apply list_elem_of_here.
Defined.

(** * Further properties of the code *)

(** ** The continuity check *)

Lemma assertChainContinuity_Ok_heights base chain :
  assertChainContinuity base chain = Ok tt ↔
  ∀ (i : nat) (b : HashAndHeight),
    chain !! i = Some b → height b = height base + 1 + Z.of_nat i.
Proof.
  revert base. induction chain as [|c rest IH]; intros base; simpl.
  - split; [intros _ i b Hi; by destruct i|done].
  - destruct (Z.eqb_spec (height c) (height base + 1)) as [Hc|Hc].
    + rewrite IH. split.
      * intros H [|i] b Hi; simpl in Hi.
        { injection Hi as <-. lia. }
        { rewrite (H i b Hi). lia. }
      * intros H i b Hi. rewrite (H (S i) b Hi). lia.
    + split; [discriminate|]. intros H. destruct Hc.
      rewrite (H 0%nat c eq_refl). lia.
Qed.




Lemma last_cons_default {A} (a c : A) (l : list A) :
  default a (last (c :: l)) = default c (last l).
Proof.
  revert a c. induction l as [|x l IH]; intros a c; [done|].
  change (last (c :: x :: l)) with (last (x :: l)).
  by rewrite (IH a x), (IH c x).
Qed.

(** X3. A chain made of two parts passes exactly when the first part
    passes from the base and the second part passes from the last block of
    the first (from the base itself when the first part is empty). *)
Theorem assertChainContinuity_app (base : HashAndHeight)
    (chain1 chain2 : list HashAndHeight) :
  assertChainContinuity base (chain1 ++ chain2) = Ok tt ↔
  assertChainContinuity base chain1 = Ok tt
  ∧ assertChainContinuity (default base (last chain1)) chain2 = Ok tt.
Proof.
  revert base. induction chain1 as [|c rest IH]; intros base; simpl.
  - tauto.
  - destruct (height c =? height base + 1).
    + by rewrite IH, (last_cons_default base c rest).
    + split; [discriminate|intros [? _]; discriminate].
Qed.


(** ** The loader and [connect] *)

Section MoreLoader.

Context {Domain : Type}.
Implicit Types (db : Database Domain) (st : TxState Domain).

Lemma sorted_blocks_elem (blocks : gmap Z string) h x :
  {| height := h; hash := x |} ∈ sorted_blocks blocks ↔ blocks !! h = Some x.
Proof.
  unfold sorted_blocks. rewrite merge_sort_Permutation, list_elem_of_fmap.
  split.
  - intros ([h' x'] & Heq & Hin). apply elem_of_map_to_list in Hin.
    unfold block_of_row in Heq; simpl in Heq. by injection Heq as -> ->.
  - intros H. exists (h, x). split; [done|]. by apply elem_of_map_to_list.
Qed.

Lemma sorted_blocks_length (blocks : gmap Z string) :
  length (sorted_blocks blocks) = size blocks.
Proof.
  unfold sorted_blocks.
  by rewrite merge_sort_Permutation, length_fmap, length_map_to_list.
Qed.

(** X5. [getState] answers with a state exactly when the schema holds a
    status row 0 and a hot-block table and the state they make up, the
    row with the hot blocks in ascending height, passes the two
    invariants: the state returned is that one.  Whatever it answers, it
    leaves the data as they are. *)
Theorem getState_returns_persisted (this : DrizzleDatabase) st state :
  ((getState this st).1 = Ok state ↔
   ∃ ns, schemas (cur st) !! statusSchema this = Some ns
         ∧ persisted ns = Some state ∧ valid_state state)
  ∧ cur (getState this st).2 = cur st
  ∧ base (getState this st).2 = base st.
Proof.
  rewrite getState_log. simpl. split; [|done].
  unfold load. destruct (schemas (cur st) !! statusSchema this) as [ns|].
  - rewrite load_ns_Ok. unfold valid_state. split.
    + intros (? & ? & ?). eauto.
    + intros (ns' & [= <-] & ? & ? & ?). done.
  - split; [done|]. by intros (ns & ? & _).
Qed.

(** X6. The [top] of a state that [getState] returns is the hot-block
    table, row for row: a block is in [top] exactly when the table holds
    its hash under its height, [top] is as long as the table is large,
    and the heights in the table are exactly the ones that follow the
    finalized height, without a gap. *)
Theorem loaded_top_is_hot_block_table (this : DrizzleDatabase) st state
    ns blocks :
  (getState this st).1 = Ok state →
  schemas (cur st) !! statusSchema this = Some ns →
  hot_block ns = Some blocks →
  (∀ h x, {| height := h; hash := x |} ∈ top state ↔ blocks !! h = Some x)
  ∧ length (top state) = size blocks
  ∧ ∀ h, is_Some (blocks !! h) ↔
         height state < h <= height state + Z.of_nat (size blocks).
Proof.
  intros Hget Hns Hblocks.
  rewrite getState_log in Hget. simpl in Hget. unfold load in Hget.
  rewrite Hns in Hget. apply load_ns_Ok in Hget as (Hp & _ & Hc).
  unfold persisted in Hp. rewrite Hblocks in Hp.
  destruct (status ns) as [rows|]; simpl in Hp; [|done].
  destruct (rows !! 0) as [row|]; simpl in Hp; [|done].
  injection Hp as <-. simpl in *.
  apply assertChainContinuity_Ok in Hc.
  pose proof (proj1 (assertChainContinuity_Ok_heights _ _) Hc) as Hh.
  simpl in Hh. clear Hc. rename Hh into Hc.
  split_and!.
  - apply sorted_blocks_elem.
  - apply sorted_blocks_length.
  - intros h. rewrite <- sorted_blocks_length. split.
    + intros [x Hx]. apply sorted_blocks_elem, list_elem_of_lookup in Hx
        as [i Hi].
      pose proof (lookup_lt_Some _ _ _ Hi) as Hlt.
      apply Hc in Hi. simpl in Hi. lia.
    + intros Hh.
      destruct (lookup_lt_is_Some_2 (sorted_blocks blocks)
                  (Z.to_nat (h - row_height row - 1))) as [b Hb]; [lia|].
      pose proof (Hc _ _ Hb) as Hhb.
      exists (hash b). apply sorted_blocks_elem, list_elem_of_lookup.
      exists (Z.to_nat (h - row_height row - 1)).
      rewrite Hb. f_equal. destruct b as [hb xb]; simpl in *. f_equal. lia.
Qed.

(** X7. When [connect] fails, it fails on one of the two assertions of
    [assertStateInvariants], and the tables and the row it had created on
    its way are gone with the rollback: the database is what it was. *)
Theorem connect_failure_rolls_back (this : DrizzleDatabase) db e :
  result (connect this db) = Err e →
  (e = AssertionError None ∨ e = chain_error)
  ∧ committed (connect this db) = db.
Proof.
  destruct (connect_run this db) as (Hr & Hc & _). rewrite Hr, Hc.
  intros He. rewrite He. split; [|done].
  revert He. unfold load_ns, seeded; simpl.
  destruct (default ∅ (status _) !! 0) as [row|] eqn:Hrow; rewrite ?Hrow,
    ?lookup_insert_eq; apply assertStateInvariants_Err.
Qed.

(** X8. [connect] adds and never takes away: the caller's tables and the
    other schemas are untouched, and in its own schema every status row,
    every hot block and every change-log entry that was there is still
    there, as it was. *)
Theorem connect_keeps_what_is_there (this : DrizzleDatabase) db :
  let s := statusSchema this in
  let db' := committed (connect this db) in
  domain db' = domain db
  ∧ (∀ s', s' ≠ s → schemas db' !! s' = schemas db !! s')
  ∧ ∀ ns, schemas db !! s = Some ns →
      ∃ ns', schemas db' !! s = Some ns'
        ∧ (∀ rows id row, status ns = Some rows → rows !! id = Some row →
             ∃ rows', status ns' = Some rows' ∧ rows' !! id = Some row)
        ∧ (∀ blocks, hot_block ns = Some blocks → hot_block ns' = Some blocks)
        ∧ (∀ changes, hot_change_log ns = Some changes →
             hot_change_log ns' = Some changes).
Proof.
  intros s db'. subst db'.
  destruct (connect_run this db) as (_ & Hc & _). rewrite Hc. fold s.
  destruct (is_ok _).
  - split_and!; [done|by intros s' Hs'; apply lookup_insert_ne|].
    intros ns Hns. rewrite Hns, lookup_set_namespace. simpl.
    eexists. split; [done|]. unfold seeded; simpl. split_and!.
    + intros rows id row -> Hrow. eexists. split; [done|]. simpl.
      destruct (rows !! 0) eqn:H0; [done|].
      rewrite lookup_insert_ne; [done|]. intros <-. congruence.
    + by intros blocks ->.
    + by intros changes ->.
  - split_and!; [done..|]. intros ns Hns. exists ns. split_and!; eauto.
Qed.

(** X9. What [connect] returns is what [getState] loads next: after a
    [connect] that succeeded, the loader, at any isolation level, answers
    with the same state. *)
Theorem connect_then_getState (this : DrizzleDatabase) lvl db state :
  result (connect this db) = Ok state →
  result (transaction (getState this) lvl (committed (connect this db)))
  = Ok state.
Proof.
  destruct (connect_run this db) as (Hr & Hc & _). rewrite Hr, Hc.
  intros Hstate. rewrite Hstate; simpl.
  rewrite getState_transaction. unfold load.
  by rewrite lookup_set_namespace.
Qed.

End MoreLoader.

(** ** The update of the status row, and [transact] *)

Section MoreTransact.

Context {Domain : Type}.
Implicit Types (db : Database Domain) (st : TxState Domain).

Lemma status_row0_Some s db row :
  status_row0 s db = Some row ↔
  ∃ ns rows, schemas db !! s = Some ns ∧ status ns = Some rows
             ∧ rows !! 0 = Some row.
Proof.
  unfold status_row0. split.
  - destruct (schemas db !! s) as [ns|]; simpl; [|by rewrite lookup_empty].
    destruct (status ns) as [rows|] eqn:Hrows; simpl;
      [|by rewrite lookup_empty].
    intros Hrow. by exists ns, rows.
  - intros (ns & rows & Hns & Hrows & Hrow). rewrite Hns. simpl.
    by rewrite Hrows.
Qed.

Lemma updateStatus_run (this : DrizzleDatabase) st nonce next :
  (updateStatus this nonce next st).1
  = match update_status (statusSchema this) nonce next (cur st) with
    | Ok _ => Ok tt
    | Err e => Err e
    end
  ∧ cur (updateStatus this nonce next st).2
    = match update_status (statusSchema this) nonce next (cur st) with
      | Ok (_, d) => d
      | Err _ => cur st
      end
  ∧ base (updateStatus this nonce next st).2 = base st.
Proof.
  unfold updateStatus. tx_unfold.
  by destruct (update_status _ _ _ _) as [[k d]|].
Qed.

(** X10. A stale nonce writes nothing and is no error: when the status
    row 0 does not hold the nonce that [updateStatus] is given (or is not
    there), the data are after the call what they were before, and the
    call returns normally whenever the table is there and the two numbers
    fit their columns. *)
Theorem updateStatus_stale_nonce (this : DrizzleDatabase) st nonce next :
  row_nonce <$> status_row0 (statusSchema this) (cur st) ≠ Some nonce →
  cur (updateStatus this nonce next st).2 = cur st
  ∧ base (updateStatus this nonce next st).2 = base st
  ∧ (∀ ns rows,
       schemas (cur st) !! statusSchema this = Some ns →
       status ns = Some rows →
       in_int4 (height next) && in_int4 nonce = true →
       (updateStatus this nonce next st).1 = Ok tt).
Proof.
  intros Hstale.
  destruct (updateStatus_run this st nonce next) as (-> & -> & ->).
  unfold update_status, on_namespace.
  destruct (schemas (cur st) !! statusSchema this) as [ns|] eqn:Hns;
    simpl in *; [|by split_and!].
  destruct (status ns) as [rows|] eqn:Hrows; simpl in *;
    [|split_and!; [done..|]; by intros ns' rows' [= <-]; rewrite Hrows].
  destruct (in_int4 (height next) && in_int4 nonce) eqn:Hrange; simpl;
    [|split_and!; [done..|]; by intros ns' rows' _ _ ?].
  destruct (rows !! 0) as [row|] eqn:Hrow; simpl in *.
  - destruct (Z.eqb_spec (row_nonce row) nonce) as [Heq|Hne]; simpl.
    { destruct Hstale. rewrite <- Heq.
      by rewrite (proj2 (status_row0_Some _ _ row)) by by exists ns, rows. }
    rewrite set_namespace_id by done. by split_and!.
  - rewrite set_namespace_id by done. by split_and!.
Qed.

(** X11. The nonce that matches advances the row by exactly one: when the
    status row 0 holds the nonce that [updateStatus] is given and the
    numbers fit their columns, the call returns, the row is at the next
    head with the nonce one up, and the database differs from what it was
    in that row only. *)
Theorem updateStatus_matching_nonce (this : DrizzleDatabase) st nonce next
    row :
  status_row0 (statusSchema this) (cur st) = Some row →
  row_nonce row = nonce →
  in_int4 (height next) && in_int4 nonce && in_int4 (nonce + 1) = true →
  (updateStatus this nonce next st).1 = Ok tt
  ∧ status_row0 (statusSchema this) (cur (updateStatus this nonce next st).2)
    = Some {| row_height := height next; row_hash := hash next;
              row_nonce := nonce + 1 |}
  ∧ status_row_update (statusSchema this) (cur st)
      (cur (updateStatus this nonce next st).2)
  ∧ base (updateStatus this nonce next st).2 = base st.
Proof.
  intros (ns & rows & Hns & Hrows & Hrow)%status_row0_Some <- Hrange.
  apply andb_prop in Hrange as [Hrange H1].
  destruct (updateStatus_run this st (row_nonce row) next) as (-> & -> & ->).
  unfold update_status, on_namespace. rewrite Hns, Hrows, Hrange, Hrow.
  simpl. rewrite Z.eqb_refl, H1. simpl. split_and!; [done| |by eapply row_changed|done].
  apply status_row0_Some. eexists _, _.
  rewrite lookup_set_namespace. split_and!; [done..|].
  apply lookup_insert_eq.
Qed.

Lemma load_same_namespace s db db' :
  schemas db' !! s = schemas db !! s → load s db' = load s db.
Proof. unfold load. by intros ->. Qed.

Lemma precheck_Ok info state :
  precheck info state = Ok tt ↔
  head state = prevHead info
  ∧ height (prevHead info) < height (nextHead info)
  ∧ hash (prevHead info) ≠ hash (nextHead info).
Proof.
  unfold precheck.
  destruct (String.eqb_spec (hash state) (hash (prevHead info))) as [Hh|Hh];
    simpl.
  2: { split; [done|]. intros (Heq & _). destruct Hh. by rewrite Heq. }
  destruct (Z.eqb_spec (height state) (height (prevHead info))) as [Hz|Hz];
    simpl.
  2: { split; [done|]. intros (Heq & _). destruct Hz. by rewrite Heq. }
  destruct (Z.ltb_spec (height (prevHead info)) (height (nextHead info)));
    simpl.
  2: { split; [done|]. intros (_ & ? & _). lia. }
  destruct (String.eqb_spec (hash (prevHead info)) (hash (nextHead info)));
    simpl.
  { split; [done|]. intros (_ & _ & ?). done. }
  split; [|done]. intros _. split_and!; [|done..].
  destruct (head state), (prevHead info); simpl in *. congruence.
Qed.

(** The namespace of the store is what it was after an attempt that
    failed, when the callback and the other processes leave it alone. *)
Lemma attempt_data_failure this foreign info cb db e :
  (∀ d, schemas (foreign d) !! statusSchema this
        = schemas d !! statusSchema this) →
  (attempt_data this foreign info cb db).2 = Err e →
  schemas (attempt_data this foreign info cb db).1 !! statusSchema this
  = schemas db !! statusSchema this.
Proof.
  intros Hforeign. unfold attempt_data.
  destruct (load _ db) as [state|]; [|done].
  destruct (precheck info state) as [[]|]; [|done].
  assert (schemas (if takes_snapshot (isolationLevel this) then db
                   else foreign db) !! statusSchema this
          = schemas db !! statusSchema this) as H1.
  { by destruct (takes_snapshot _). }
  destruct (cb _) as [db2|]; [|done].
  by destruct (update_status _ _ _ db2) as [[k db3]|].
Qed.

(** The last attempt of a call, and where it started from. *)
Lemma transact_last_attempt this foreign info cb db :
  (∀ n d, schemas (foreign n d) !! statusSchema this
          = schemas d !! statusSchema this) →
  let r := transact this foreign info cb db in
  ∃ d, schemas d !! statusSchema this = schemas db !! statusSchema this
       ∧ committed (outcome r)
         = (attempt_data this (foreign (attempts r)) info cb d).1
       ∧ result (outcome r)
         = match (attempt_data this (foreign (attempts r)) info cb d).2 with
           | Err (RetryError e) => Err e
           | other => other
           end.
Proof.
  intros Hforeign r. subst r. unfold transact, promiseRetry.
  set (R := λ d d' : Database Domain,
              schemas d' !! statusSchema this = schemas d !! statusSchema this).
  assert (PreOrder R) as HR.
  { split; [by intros d|]. intros d1 d2 d3 H12 H23. unfold R in *. congruence. }
  destruct (promiseRetry_from_last R
              (λ n, transaction (transact_body this (foreign n) info cb)
                      (isolationLevel this))) with (timeouts := 10%nat)
    (number := 1%nat) (db := db) as (d & Hd & Hc & Hr).
  { intros n d e. rewrite attempt_committed, attempt_result.
    apply attempt_data_failure, Hforeign. }
  exists d. rewrite attempt_committed in Hc. rewrite attempt_result in Hr.
  done.
Qed.

Lemma in_int4_isSafeInteger n : in_int4 n = true → isSafeInteger n = true.
Proof.
  unfold in_int4, isSafeInteger. intros [H1 H2]%andb_prop.
  apply Z.leb_le in H1. apply Z.ltb_lt in H2.
  apply andb_true_intro. split; [apply Z.leb_le|apply Z.leb_le]; lia.
Qed.

(** A call that succeeded, on the data. *)
Lemma transact_success_core this foreign info cb db :
  (∀ d d', cb d = Ok d' →
     schemas d' !! statusSchema this = schemas d !! statusSchema this) →
  (∀ n d, schemas (foreign n d) !! statusSchema this
          = schemas d !! statusSchema this) →
  let r := transact this foreign info cb db in
  result (outcome r) = Ok tt →
  ∃ state ns rows,
    load (statusSchema this) db = Ok state
    ∧ persisted ns = Some state
    ∧ precheck info state = Ok tt
    ∧ in_int4 (height (nextHead info)) = true
    ∧ schemas db !! statusSchema this = Some ns
    ∧ status ns = Some rows
    ∧ schemas (committed (outcome r)) !! statusSchema this
      = Some {| status :=
                  Some (<[0 := {| row_height := height (nextHead info);
                                  row_hash := hash (nextHead info);
                                  row_nonce := nonce state + 1 |}]> rows);
                hot_block := hot_block ns;
                hot_change_log := hot_change_log ns |}.
Proof.
  intros Hcb Hforeign r Hres.
  destruct (transact_last_attempt this foreign info cb db Hforeign)
    as (d & Hd & Hc & Hr).
  fold r in Hc, Hr. rewrite Hc. rewrite Hres in Hr. clear Hc Hres.
  revert Hr. unfold attempt_data.
  rewrite (load_same_namespace _ db d Hd).
  destruct (load _ db) as [state|e] eqn:Hload; [|by destruct e].
  destruct (precheck info state) as [[]|e] eqn:Hpre; [|by destruct e].
  set (d1 := if takes_snapshot _ then d else foreign (attempts r) d).
  assert (schemas d1 !! statusSchema this = schemas db !! statusSchema this)
    as H1.
  { unfold d1. destruct (takes_snapshot _); [done|]. by rewrite Hforeign. }
  destruct (cb d1) as [d2|e] eqn:Hd2; [|by destruct e].
  apply Hcb in Hd2. rewrite H1 in Hd2.
  unfold update_status, on_namespace. rewrite Hd2.
  unfold load in Hload.
  destruct (schemas db !! statusSchema this) as [ns|] eqn:Hns; [|done].
  apply load_ns_Ok in Hload as (Hp & _).
  pose proof Hp as Hpersisted.
  unfold persisted in Hp.
  destruct (status ns) as [rows|] eqn:Hrows; simpl in Hp; [|done].
  destruct (rows !! 0) as [row|] eqn:Hrow; simpl in Hp; [|done].
  destruct (hot_block ns) as [blocks|] eqn:Hblocks; simpl in Hp; [|done].
  injection Hp as <-. simpl in *.
  destruct (in_int4 (height (nextHead info))) eqn:Hin; simpl; [|done].
  destruct (in_int4 (row_nonce row)); simpl; [|done].
  rewrite Z.eqb_refl. simpl.
  destruct (in_int4 (row_nonce row + 1)); simpl; [|done].
  intros _. eexists _, ns, rows. split_and!; try done.
  rewrite lookup_insert_eq, Hblocks. done.
Qed.

(** X12. What a success means.  When the callback and the other processes
    leave the tables of the status schema alone, a call of [transact] that
    returns normally found the stored head equal to [prevHead], with
    [nextHead] strictly higher and of another hash, and fitting the height
    column; it leaves the status row 0 at [nextHead] with the nonce one
    up, and the hot tables as they were. *)
Theorem transact_success_advances this foreign info cb db :
  (∀ d d', cb d = Ok d' →
     schemas d' !! statusSchema this = schemas d !! statusSchema this) →
  (∀ n d, schemas (foreign n d) !! statusSchema this
          = schemas d !! statusSchema this) →
  let r := transact this foreign info cb db in
  result (outcome r) = Ok tt →
  ∃ state,
    result (transaction (getState this) (isolationLevel this) db) = Ok state
    ∧ head state = prevHead info
    ∧ height (prevHead info) < height (nextHead info)
    ∧ hash (prevHead info) ≠ hash (nextHead info)
    ∧ in_int4 (height (nextHead info)) = true
    ∧ status_row0 (statusSchema this) (committed (outcome r))
      = Some {| row_height := height (nextHead info);
                row_hash := hash (nextHead info);
                row_nonce := nonce state + 1 |}
    ∧ hot_tables (statusSchema this) (committed (outcome r))
      = hot_tables (statusSchema this) db.
Proof.
  intros Hcb Hforeign r Hres.
  destruct (transact_success_core this foreign info cb db Hcb Hforeign Hres)
    as (state & ns & rows & Hload & _ & Hpre & Hin & Hns & Hrows
        & Hcommitted).
  fold r in Hcommitted.
  apply precheck_Ok in Hpre as (Hhead & Hlt & Hne).
  exists state. split_and!; try done.
  - rewrite getState_transaction. done.
  - apply status_row0_Some. eexists _, _. split_and!; [done..|].
    apply lookup_insert_eq.
  - unfold hot_tables. rewrite Hcommitted, Hns. done.
Qed.


Lemma load_ns_advanced ns rows state next :
  status ns = Some rows → persisted ns = Some state →
  load_ns {| status :=
               Some (<[0 := {| row_height := height next;
                               row_hash := hash next;
                               row_nonce := nonce state + 1 |}]> rows);
             hot_block := hot_block ns;
             hot_change_log := hot_change_log ns |}
  = assertStateInvariants
      {| head := next; top := top state; nonce := nonce state + 1 |}.
Proof.
  intros Hrows. unfold persisted, load_ns. rewrite Hrows. simpl.
  rewrite lookup_insert_eq.
  destruct (rows !! 0) as [row|]; simpl; [|done].
  destruct (hot_block ns) as [blocks|]; simpl; [|done].
  intros [= <-]. unfold state_of_row. simpl. by destruct next.
Qed.

Lemma precheck_race info (state : DatabaseState) :
  hash state ≠ hash (prevHead info) →
  precheck info state = Err (AssertionError (Some RACE_MSG)).
Proof.
  intros Hne. unfold precheck.
  by destruct (String.eqb_spec (hash state) (hash (prevHead info))).
Qed.

(** What the loader answers after a call that succeeded. *)
Lemma load_after_success this foreign info cb db :
  (∀ d d', cb d = Ok d' →
     schemas d' !! statusSchema this = schemas d !! statusSchema this) →
  (∀ n d, schemas (foreign n d) !! statusSchema this
          = schemas d !! statusSchema this) →
  let r := transact this foreign info cb db in
  result (outcome r) = Ok tt →
  ∃ state,
    load (statusSchema this) db = Ok state
    ∧ precheck info state = Ok tt
    ∧ load (statusSchema this) (committed (outcome r))
      = match top state with
        | [] => Ok {| head := nextHead info; top := [];
                      nonce := nonce state + 1 |}
        | _ :: _ => Err chain_error
        end.
Proof.
  intros Hcb Hforeign r Hres.
  destruct (transact_success_core this foreign info cb db Hcb Hforeign Hres)
    as (state & ns & rows & Hload & Hp & Hpre & Hin & Hns & Hrows
        & Hcommitted).
  fold r in Hcommitted. exists state. split_and!; [done..|].
  unfold load at 1. rewrite Hcommitted.
  rewrite (load_ns_advanced ns rows state) by done.
  unfold assertStateInvariants. simpl.
  rewrite in_int4_isSafeInteger by done.
  apply load_Ok in Hload as [_ Hc].
  apply precheck_Ok in Hpre as (Hhead & Hlt & _).
  destruct (top state) as [|b rest]; simpl; [done|].
  apply continuous_cons in Hc as [Hb _].
  destruct (Z.eqb_spec (height b) (height (nextHead info) + 1)) as [Heq|];
    [|done].
  rewrite Hhead in Hb. lia.
Qed.

(** X13. The round trip of a success: with no hot block held, and the
    callback and the other processes leaving the tables of the status
    schema alone, the state that [getState] reads after a call of
    [transact] that returned is [nextHead], no hot block, and the nonce
    that was read before, plus one. *)
Theorem transact_then_getState this foreign info cb db lvl state :
  (∀ d d', cb d = Ok d' →
     schemas d' !! statusSchema this = schemas d !! statusSchema this) →
  (∀ n d, schemas (foreign n d) !! statusSchema this
          = schemas d !! statusSchema this) →
  result (transaction (getState this) (isolationLevel this) db) = Ok state →
  top state = [] →
  let r := transact this foreign info cb db in
  result (outcome r) = Ok tt →
  result (transaction (getState this) lvl (committed (outcome r)))
  = Ok {| head := nextHead info; top := []; nonce := nonce state + 1 |}.
Proof.
  intros Hcb Hforeign Hstate Htop r Hres.
  rewrite getState_transaction in Hstate. rewrite getState_transaction.
  destruct (load_after_success this foreign info cb db Hcb Hforeign Hres)
    as (state' & Hload & _ & Hafter).
  rewrite Hstate in Hload. injection Hload as <-.
  fold r in Hafter. by rewrite Hafter, Htop.
Qed.

(** X14. [transact] does not keep the invariant of the loader when hot
    blocks are held: the call moves the finalized head and leaves the hot
    blocks where they are, so that after a call that returned, with the
    callback and the other processes leaving the tables of the status
    schema alone, [getState] fails on the continuity of the chain. *)
Theorem transact_above_hot_blocks this foreign info cb db lvl state :
  (∀ d d', cb d = Ok d' →
     schemas d' !! statusSchema this = schemas d !! statusSchema this) →
  (∀ n d, schemas (foreign n d) !! statusSchema this
          = schemas d !! statusSchema this) →
  result (transaction (getState this) (isolationLevel this) db) = Ok state →
  top state ≠ [] →
  let r := transact this foreign info cb db in
  result (outcome r) = Ok tt →
  result (transaction (getState this) lvl (committed (outcome r)))
  = Err chain_error.
Proof.
  intros Hcb Hforeign Hstate Htop r Hres.
  rewrite getState_transaction in Hstate. rewrite getState_transaction.
  destruct (load_after_success this foreign info cb db Hcb Hforeign Hres)
    as (state' & Hload & _ & Hafter).
  rewrite Hstate in Hload. injection Hload as <-.
  fold r in Hafter. rewrite Hafter. by destruct (top state).
Qed.

(** The first attempt is the only one when it does not ask for another. *)
Lemma transact_first_attempt this foreign info cb db d res :
  attempt_data this (foreign 1%nat) info cb db = (d, res) →
  (∀ x, res ≠ Err (RetryError x)) →
  attempts (transact this foreign info cb db) = 1%nat
  ∧ committed (outcome (transact this foreign info cb db)) = d
  ∧ result (outcome (transact this foreign info cb db)) = res.
Proof.
  intros Hattempt Hfinal. unfold transact.
  rewrite promiseRetry_final.
  - cbn [outcome attempts]. by rewrite attempt_committed, attempt_result, Hattempt.
  - intros e. rewrite attempt_result, Hattempt. apply Hfinal.
Qed.

(** The attempt that follows a success is stopped by the loader or by
    the first check. *)
Lemma attempt_after_success this foreign info cb db foreign' cb' :
  (∀ d d', cb d = Ok d' →
     schemas d' !! statusSchema this = schemas d !! statusSchema this) →
  (∀ n d, schemas (foreign n d) !! statusSchema this
          = schemas d !! statusSchema this) →
  result (outcome (transact this foreign info cb db)) = Ok tt →
  ∃ e, attempt_data this foreign' info cb'
         (committed (outcome (transact this foreign info cb db)))
       = (committed (outcome (transact this foreign info cb db)), Err e)
       ∧ (e = AssertionError (Some RACE_MSG) ∨ e = chain_error).
Proof.
  intros Hcb Hforeign Hres.
  destruct (load_after_success this foreign info cb db Hcb Hforeign Hres)
    as (state & Hload & Hpre & Hafter).
  apply precheck_Ok in Hpre as (_ & _ & Hne).
  unfold attempt_data. rewrite Hafter.
  destruct (top state); [|eexists; split; [done|by right]].
  rewrite precheck_race; [eexists; split; [done|by left]|].
  cbn [head hash]. congruence.
Qed.

(** X15. A success cannot be replayed: after a call of [transact] that
    returned (the callback and the other processes leaving the tables of
    the status schema alone), the same call again, whatever its callback
    and whatever the other processes do, is rejected in one attempt, with
    the message of a race or on the continuity of the chain, and leaves
    the database as it was. *)
Theorem transact_replay_rejected this foreign info cb db foreign' cb' :
  (∀ d d', cb d = Ok d' →
     schemas d' !! statusSchema this = schemas d !! statusSchema this) →
  (∀ n d, schemas (foreign n d) !! statusSchema this
          = schemas d !! statusSchema this) →
  let r := transact this foreign info cb db in
  result (outcome r) = Ok tt →
  let r' := transact this foreign' info cb' (committed (outcome r)) in
  (result (outcome r') = Err (AssertionError (Some RACE_MSG))
   ∨ result (outcome r') = Err chain_error)
  ∧ committed (outcome r') = committed (outcome r)
  ∧ attempts r' = 1%nat.
Proof.
  cbv zeta. intros Hcb Hforeign Hres.
  destruct (attempt_after_success this foreign info cb db (foreign' 1%nat) cb'
              Hcb Hforeign Hres) as (e & Hattempt & He).
  destruct (transact_first_attempt this foreign' info cb' _ _ _ Hattempt)
    as (Hn & Hc & Hr).
  { intros x. by destruct He as [-> | ->]. }
  split_and!; [|exact Hc|exact Hn].
  rewrite Hr. destruct He as [-> | ->]; [by left|by right].
Qed.



Lemma promiseRetry_from_attempts {A}
    (fn : nat → Database Domain → Outcome Domain A) timeouts :
  ∀ number db,
    let r := promiseRetry_from timeouts number fn db in
    (number ≤ attempts r ≤ number + timeouts)%nat
    ∧ (attempts r ≠ number →
       ∃ e, result (fn number db) = Err (RetryError e)).
Proof.
  induction timeouts as [|t IH]; intros number db; simpl.
  - destruct (result (fn number db)) as [a|[]]; simpl; (split; [lia|done]).
  - destruct (result (fn number db)) as [a|[]] eqn:Hr; simpl;
      try (split; [lia|done]).
    destruct (IH (S number) (committed (fn number db))) as [Hb _].
    split; [lia|]. eauto.
Qed.

(** X18. The attempts of a call are between one and eleven, the first
    run and the ten retries of [promise-retry]; and a call that took
    more than one attempt had a callback that threw the error of
    [promise-retry] itself: the checks, the loader and the update never
    ask for a retry. *)
Theorem transact_attempts_bound this foreign info cb db :
  let r := transact this foreign info cb db in
  (1 ≤ attempts r ≤ 11)%nat
  ∧ (attempts r ≠ 1%nat → ∃ d e, cb d = Err (RetryError e)).
Proof.
  intros r. subst r. unfold transact, promiseRetry.
  destruct (promiseRetry_from_attempts
              (λ n, transaction (transact_body this (foreign n) info cb)
                      (isolationLevel this)) 10 1%nat db) as [Hb Hretry].
  split; [lia|]. intros Hn. destruct (Hretry Hn) as [e He].
  rewrite attempt_result in He.
  apply attempt_data_retry in He as [d Hd]. eauto.
Qed.

(** X19. The status row never moves back: when the callback and the
    other processes leave the tables of the status schema alone, a call
    of [transact] that failed leaves them exactly as they were, and
    after any call the status row 0 that was there is still there, its
    height not below what it was and its nonce what it was or one more. *)
Theorem transact_never_moves_back this foreign info cb db row :
  (∀ d d', cb d = Ok d' →
     schemas d' !! statusSchema this = schemas d !! statusSchema this) →
  (∀ n d, schemas (foreign n d) !! statusSchema this
          = schemas d !! statusSchema this) →
  status_row0 (statusSchema this) db = Some row →
  let r := transact this foreign info cb db in
  (∀ e, result (outcome r) = Err e →
     schemas (committed (outcome r)) !! statusSchema this
     = schemas db !! statusSchema this)
  ∧ ∃ row',
      status_row0 (statusSchema this) (committed (outcome r)) = Some row'
      ∧ row_height row <= row_height row'
      ∧ row_nonce row <= row_nonce row' <= row_nonce row + 1.
Proof.
  intros Hcb Hforeign Hrow r.
  assert (∀ e, result (outcome r) = Err e →
            schemas (committed (outcome r)) !! statusSchema this
            = schemas db !! statusSchema this) as Hfail.
  { intros e He.
    destruct (transact_last_attempt this foreign info cb db Hforeign)
      as (d & Hd & Hc & Hr).
    fold r in Hc, Hr. rewrite Hc, <- Hd.
    rewrite He in Hr.
    destruct (attempt_data this (foreign (attempts r)) info cb d).2
      as [[]|e'] eqn:Hres; [done|].
    eapply attempt_data_failure; [apply Hforeign|exact Hres]. }
  split; [exact Hfail|].
  destruct (result (outcome r)) as [[]|e] eqn:Hres.
  - destruct (transact_success_core this foreign info cb db Hcb Hforeign Hres)
      as (state & ns & rows & Hload & Hp & Hpre & Hin & Hns & Hrows
          & Hcommitted).
    fold r in Hcommitted.
    apply status_row0_Some in Hrow as (ns' & rows' & Hns' & Hrows' & Hrow).
    rewrite Hns in Hns'. injection Hns' as <-.
    rewrite Hrows in Hrows'. injection Hrows' as <-.
    unfold persisted in Hp. rewrite Hrows in Hp. simpl in Hp.
    rewrite Hrow in Hp. simpl in Hp.
    destruct (hot_block ns); simpl in Hp; [|done]. injection Hp as <-.
    apply precheck_Ok in Hpre as (Hhead & Hlt & _). simpl in *.
    eexists. split.
    + apply status_row0_Some. eexists _, _. split_and!; [done..|].
      apply lookup_insert_eq.
    + simpl. rewrite <- Hhead in Hlt. simpl in Hlt. lia.
  - exists row. split; [|lia].
    unfold status_row0 in *. by rewrite (Hfail e).
Qed.

Lemma promiseRetry_from_exhausted {A} (I : Database Domain → Prop)
    (fn : nat → Database Domain → Outcome Domain A) e :
  (∀ n d, I d → result (fn n d) = Err (RetryError e)
               ∧ I (committed (fn n d))) →
  ∀ timeouts number db, I db →
    let r := promiseRetry_from timeouts number fn db in
    attempts r = (number + timeouts)%nat
    ∧ result (outcome r) = Err e
    ∧ I (committed (outcome r)).
Proof.
  intros Hfn timeouts.
  induction timeouts as [|t IH]; intros number db Hdb; simpl;
    destruct (Hfn number db Hdb) as [Hr HI]; rewrite Hr; simpl.
  - split_and!; [lia|done..].
  - destruct (IH (S number) _ HI) as (Hn & Hres & Hc).
    split_and!; [lia|done..].
Qed.

(** X20. A callback that keeps throwing the error of [promise-retry] is
    run eleven times: when the state is loaded and passes the checks and
    the other processes leave the tables of the status schema alone, the
    call takes the first attempt and the ten retries, ends with the error
    that was wrapped, and leaves those tables as they were. *)
Theorem transact_retries_exhausted this foreign info cb db state e :
  (∀ d, cb d = Err (RetryError e)) →
  (∀ n d, schemas (foreign n d) !! statusSchema this
          = schemas d !! statusSchema this) →
  result (transaction (getState this) (isolationLevel this) db) = Ok state →
  head state = prevHead info →
  height (prevHead info) < height (nextHead info) →
  hash (prevHead info) ≠ hash (nextHead info) →
  attempts (transact this foreign info cb db) = 11%nat
  ∧ result (outcome (transact this foreign info cb db)) = Err e
  ∧ schemas (committed (outcome (transact this foreign info cb db)))
      !! statusSchema this
    = schemas db !! statusSchema this.
Proof.
  rewrite getState_transaction.
  intros Hcb Hforeign Hload Hhead Hlt Hne. unfold transact, promiseRetry.
  apply (promiseRetry_from_exhausted
           (λ d, schemas d !! statusSchema this
                 = schemas db !! statusSchema this)); [|done].
  intros n d Hd. rewrite attempt_result, attempt_committed.
  unfold attempt_data.
  rewrite (load_same_namespace _ db d Hd), Hload.
  rewrite (proj2 (precheck_Ok info state)) by done.
  rewrite Hcb. cbn [fst snd]. split; [done|].
  destruct (takes_snapshot _); [done|]. by rewrite Hforeign.
Qed.

#[local] Arguments toQuery : simpl never.
#[local] Arguments sql : simpl never.
#[local] Arguments update_status : simpl never.
#[local] Arguments takes_snapshot : simpl never.

(** X21. What one attempt sends: the reads of the loader first, and
    after them the update, once, with the nonce that was loaded and
    [nextHead] as its parameters, if and only if the state was loaded,
    the four checks passed and the callback returned. *)
Theorem attempt_statements this foreign info cb db :
  let s := statusSchema this in
  let o := transaction (transact_body this foreign info cb)
             (isolationLevel this) db in
  executed o
  = loader_statements s db
    ++ match load s db with
       | Ok state =>
           match precheck info state,
                 cb (if takes_snapshot (isolationLevel this) then db
                     else foreign db) with
           | Ok _, Ok _ =>
               [Statement.update_status s (nonce state) (nextHead info)]
           | _, _ => []
           end
       | Err _ => []
       end.
Proof.
  intros s o. subst s o.
  unfold transaction, transact_body.
  rewrite run_bind, getState_log. cbn [cur logged].
  destruct (load (statusSchema this) db) as [state|e];
    [|by rewrite app_nil_r].
  unfold precheck, updateStatus, foreign_commit. tx_unfold. cbn.
  destruct (hash state =? hash (prevHead info))%string; cbn;
    [|by rewrite app_nil_r].
  destruct (height state =? height (prevHead info)); cbn;
    [|by rewrite app_nil_r].
  destruct (height (prevHead info) <? height (nextHead info)); cbn;
    [|by rewrite app_nil_r].
  destruct (hash (prevHead info) =? hash (nextHead info))%string; cbn;
    [by rewrite app_nil_r|].
  destruct (takes_snapshot (isolationLevel this)); cbn.
  all: destruct (cb _) as [db2|e]; cbn; [|by rewrite app_nil_r].
  all: rewrite toQuery_update_status.
  all: destruct (update_status _ _ _ _) as [[k db3]|e]; cbn; done.
Qed.

End MoreTransact.

(** ** The further properties, at the scenarios *)


(** The connected database with the hot blocks 0 and 1. *)
Lemma loaded_top_is_hot_block_table_witness :
  let blocks : gmap Z string := <[0 := "h0"]> {[ 1 := "h1" ]} in
  let state := {| head := block (-1) "0x";
                  top := [block 0 "h0"; block 1 "h1"]; nonce := 0 |} in
  (∀ h x, {| height := h; hash := x |} ∈ top state ↔ blocks !! h = Some x)
  ∧ length (top state) = size blocks
  ∧ ∀ h, is_Some (blocks !! h) ↔
         height state < h <= height state + Z.of_nat (size blocks).
Proof.
  intros blocks state.
  apply (loaded_top_is_hot_block_table this
           {| base := with_hot_blocks blocks; cur := with_hot_blocks blocks;
              log := []; level := None |}
           state
           {| status := Some {[ 0 := seed_row ]};
              hot_block := Some blocks;
              hot_change_log := Some ∅ |}
           blocks).
  - vm_compute. reflexivity.
  - vm_compute. reflexivity.
  - reflexivity.
Defined.

(** A persisted state with a gap: finalized head -1, hot block 1. *)
Lemma connect_failure_rolls_back_witness :
  (chain_error = AssertionError None ∨ chain_error = chain_error)
  ∧ committed (connect this (with_hot_blocks {[ 1 := "h1" ]}))
    = with_hot_blocks {[ 1 := "h1" ]}.
Proof.
  apply (connect_failure_rolls_back this (with_hot_blocks {[ 1 := "h1" ]})
           chain_error).
  vm_compute. reflexivity.
Defined.

Lemma connect_then_getState_witness :
  result (transaction (getState this) (Some Serializable)
            (committed (connect this fresh)))
  = Ok {| head := block (-1) "0x"; top := []; nonce := 0 |}.
Proof.
  apply (connect_then_getState this (Some Serializable) fresh).
  vm_compute. reflexivity.
Defined.

(** The row holds the nonce 0; the update is conditioned on the nonce 5. *)
Lemma updateStatus_stale_nonce_witness :
  let st := {| base := connected; cur := connected; log := [];
               level := None |} in
  cur (updateStatus this 5 (block 0 "genesis") st).2 = connected
  ∧ base (updateStatus this 5 (block 0 "genesis") st).2 = connected
  ∧ (∀ ns rows,
       schemas connected !! statusSchema this = Some ns →
       status ns = Some rows →
       in_int4 0 && in_int4 5 = true →
       (updateStatus this 5 (block 0 "genesis") st).1 = Ok tt).
Proof.
  intros st.
  apply (updateStatus_stale_nonce this st 5 (block 0 "genesis")).
  vm_compute. discriminate.
Defined.

Lemma updateStatus_matching_nonce_witness :
  let st := {| base := connected; cur := connected; log := [];
               level := None |} in
  (updateStatus this 0 (block 0 "genesis") st).1 = Ok tt
  ∧ status_row0 (statusSchema this)
      (cur (updateStatus this 0 (block 0 "genesis") st).2)
    = Some {| row_height := 0; row_hash := "genesis"; row_nonce := 0 + 1 |}
  ∧ status_row_update (statusSchema this) connected
      (cur (updateStatus this 0 (block 0 "genesis") st).2)
  ∧ base (updateStatus this 0 (block 0 "genesis") st).2 = connected.
Proof.
  intros st.
  apply (updateStatus_matching_nonce this st 0 (block 0 "genesis") seed_row).
  - vm_compute. reflexivity.
  - reflexivity.
  - reflexivity.
Defined.

(** The callback of the scenarios and the absence of other processes
    leave the tables of the status schema alone. *)
Lemma insert_row_keeps_schemas (row : string) (s : string)
    (d d' : Database Rows) :
  insert_row row d = Ok d' → schemas d' !! s = schemas d !! s.
Proof. intros H. injection H as <-. reflexivity. Defined.

Lemma transact_success_advances_witness :
  let r := transact this alone genesis (insert_row "row of this processor")
             connected in
  ∃ state,
    result (transaction (getState this) (isolationLevel this) connected)
    = Ok state
    ∧ head state = prevHead genesis
    ∧ height (prevHead genesis) < height (nextHead genesis)
    ∧ hash (prevHead genesis) ≠ hash (nextHead genesis)
    ∧ in_int4 (height (nextHead genesis)) = true
    ∧ status_row0 (statusSchema this) (committed (outcome r))
      = Some {| row_height := height (nextHead genesis);
                row_hash := hash (nextHead genesis);
                row_nonce := nonce state + 1 |}
    ∧ hot_tables (statusSchema this) (committed (outcome r))
      = hot_tables (statusSchema this) connected.
Proof.
  apply (transact_success_advances this alone genesis
           (insert_row "row of this processor") connected).
  - apply insert_row_keeps_schemas.
  - intros n d. reflexivity.
  - vm_compute. reflexivity.
Defined.

Lemma transact_then_getState_witness :
  let r := transact this alone genesis (insert_row "row of this processor")
             connected in
  result (transaction (getState this) None (committed (outcome r)))
  = Ok {| head := block 0 "genesis"; top := []; nonce := 0 + 1 |}.
Proof.
  apply (transact_then_getState this alone genesis
           (insert_row "row of this processor") connected None
           {| head := block (-1) "0x"; top := []; nonce := 0 |}).
  - apply insert_row_keeps_schemas.
  - intros n d. reflexivity.
  - vm_compute. reflexivity.
  - reflexivity.
  - vm_compute. reflexivity.
Defined.

(** The hot block 0 is held on top of the finalized head -1 when the
    block 0 is finalized. *)
Lemma transact_above_hot_blocks_witness :
  let r := transact this alone genesis (insert_row "row of this processor")
             (with_hot_blocks {[ 0 := "h0" ]}) in
  result (transaction (getState this) None (committed (outcome r)))
  = Err chain_error.
Proof.
  apply (transact_above_hot_blocks this alone genesis
           (insert_row "row of this processor")
           (with_hot_blocks {[ 0 := "h0" ]}) None
           {| head := block (-1) "0x"; top := [block 0 "h0"]; nonce := 0 |}).
  - apply insert_row_keeps_schemas.
  - intros n d. reflexivity.
  - vm_compute. reflexivity.
  - discriminate.
  - vm_compute. reflexivity.
Defined.

Lemma transact_replay_rejected_witness :
  let r := transact this alone genesis (insert_row "row of this processor")
             connected in
  let r' := transact this alone genesis (insert_row "the same row again")
              (committed (outcome r)) in
  (result (outcome r') = Err (AssertionError (Some RACE_MSG))
   ∨ result (outcome r') = Err chain_error)
  ∧ committed (outcome r') = committed (outcome r)
  ∧ attempts r' = 1%nat.
Proof.
  apply (transact_replay_rejected this alone genesis
           (insert_row "row of this processor") connected alone
           (insert_row "the same row again")).
  - apply insert_row_keeps_schemas.
  - intros n d. reflexivity.
  - vm_compute. reflexivity.
Defined.



Lemma transact_never_moves_back_witness :
  let r := transact this alone genesis (insert_row "row of this processor")
             connected in
  (∀ e, result (outcome r) = Err e →
     schemas (committed (outcome r)) !! statusSchema this
     = schemas connected !! statusSchema this)
  ∧ ∃ row',
      status_row0 (statusSchema this) (committed (outcome r)) = Some row'
      ∧ row_height seed_row <= row_height row'
      ∧ row_nonce seed_row <= row_nonce row' <= row_nonce seed_row + 1.
Proof.
  apply (transact_never_moves_back this alone genesis
           (insert_row "row of this processor") connected seed_row).
  - apply insert_row_keeps_schemas.
  - intros n d. reflexivity.
  - vm_compute. reflexivity.
Defined.

Lemma transact_retries_exhausted_witness :
  let again : Database Rows → Result (Database Rows) :=
    λ _, Err (RetryError (UserError "try again")) in
  attempts (transact this alone genesis again connected) = 11%nat
  ∧ result (outcome (transact this alone genesis again connected))
    = Err (UserError "try again")
  ∧ schemas (committed (outcome (transact this alone genesis again connected)))
      !! statusSchema this
    = schemas connected !! statusSchema this.
Proof.
  apply (transact_retries_exhausted this alone genesis
           (λ _, Err (RetryError (UserError "try again"))) connected
           {| head := block (-1) "0x"; top := []; nonce := 0 |}
           (UserError "try again")).
  - intros d. reflexivity.
  - intros n d. reflexivity.
  - vm_compute. reflexivity.
  - reflexivity.
  - reflexivity.
  - discriminate.
Defined.
